(** * YouTube NLP Assistant: the extension's client logic

    A shallow embedding of [popup/popup.js] (with the background script)
    and [content/content.js]: the request dispatch of the popup
    ([processFeature] and the card click handler), the popup while it is
    open (cards, back button, the callbacks of the work in progress), the
    per-segment summary panels of a timestamp list (the handlers
    registered on [.timestamp-item] and the close buttons), and the
    content script: its top level as the parser takes it, and the
    functions it declares (page context, mutation observer, message
    listener, overlay). *)

From Stdlib Require Import Ascii String.
From stdpp Require Import gmap strings list fin_maps pretty.

(** ** JavaScript strings

    A JavaScript string is kept as the bytes of its UTF-8 encoding, which
    is how a string literal of this file is read. *)

Module Js.

(** The double quote and the line feed, which the template literals of
    the source contain. *)
Definition q : string := String (Ascii.ascii_of_nat 34) "".
Definition nl : string := String (Ascii.ascii_of_nat 10) "".

Fixpoint spaces (n : nat) : string :=
  match n with
  | O => ""
  | S n' => String " "%char (spaces n')
  end.

(** A line of a template literal: line feed, indentation, text. *)
Definition line (n : nat) (s : string) : string := nl +:+ spaces n +:+ s.

(** The white space of [String.prototype.trim] (the WhiteSpace and
    LineTerminator code points of ECMAScript), by the length of its
    encoding.  One byte: U+0009 to U+000D and U+0020. *)
Definition ws1 (a : ascii) : bool := Ascii.is_space a.

(** Two bytes: U+00A0 (C2 A0). *)
Definition ws2 (a b : ascii) : bool :=
  (N_of_ascii a =? 194)%N && (N_of_ascii b =? 160)%N.

(** Three bytes: U+1680 (E1 9A 80), U+2000 to U+200A (E2 80 80 to
    E2 80 8A), U+2028 and U+2029 (E2 80 A8, E2 80 A9), U+202F (E2 80 AF),
    U+205F (E2 81 9F), U+3000 (E3 80 80) and U+FEFF (EF BB BF). *)
Definition ws3 (a b c : ascii) : bool :=
  let x := N_of_ascii a in
  let y := N_of_ascii b in
  let z := N_of_ascii c in
  ((x =? 225) && (y =? 154) && (z =? 128) ||
   (x =? 226) && (y =? 128) &&
     ((128 <=? z) && (z <=? 138) || (z =? 168) || (z =? 169) || (z =? 175)) ||
   (x =? 226) && (y =? 129) && (z =? 159) ||
   (x =? 227) && (y =? 128) && (z =? 128) ||
   (x =? 239) && (y =? 187) && (z =? 191))%N.

(** [s.trimStart()] *)
Fixpoint trim_start (s : string) : string :=
  match s with
  | "" => ""
  | String a s1 =>
      if ws1 a then trim_start s1
      else
        match s1 with
        | "" => s
        | String b s2 =>
            if ws2 a b then trim_start s2
            else
              match s2 with
              | "" => s
              | String c s3 => if ws3 a b c then trim_start s3 else s
              end
        end
  end.

(** Every character is white space: nothing is left of [s] when the white
    space at its start is taken away. *)
Definition blank (s : string) : bool := String.eqb (trim_start s) "".

(** [s.trimEnd()]: [s] without its longest end that is blank. *)
Fixpoint trim_end (s : string) : string :=
  if blank s then ""
  else match s with
       | "" => ""
       | String a s1 => String a (trim_end s1)
       end.

(** [s.trim()] *)
Definition trim (s : string) : string := trim_end (trim_start s).

(** The rest of [s] after its first character, when that is white
    space. *)
Definition next_ws (s : string) : option string :=
  match s with
  | "" => None
  | String a s1 =>
      if ws1 a then Some s1
      else
        match s1 with
        | "" => None
        | String b s2 =>
            if ws2 a b then Some s2
            else
              match s2 with
              | "" => None
              | String c s3 => if ws3 a b c then Some s3 else None
              end
        end
  end.

(** The bytes that occur in the encoding of some white space. *)
Definition ws_byte (a : ascii) : bool :=
  ws1 a ||
  bool_decide (N_of_ascii a ∈
    [194; 160; 225; 154; 226; 129; 159; 227; 239; 187; 191; 168; 169; 175]%N) ||
  ((128 <=? N_of_ascii a) && (N_of_ascii a <=? 138))%N.

(** [hay.includes(needle)] *)
Fixpoint includes (needle hay : string) : bool :=
  String.prefix needle hay ||
  match hay with
  | "" => false
  | String _ hay' => includes needle hay'
  end.

(** [`${x}`] for a property that may be missing. *)
Definition interp (x : option string) : string :=
  match x with
  | Some s => s
  | None => "undefined"
  end.

(** [x || dflt] for a property that is a string or missing: the empty
    string is falsy. *)
Definition or_else (x : option string) (dflt : string) : string :=
  match x with
  | Some "" | None => dflt
  | Some s => s
  end.

(** [!x] for a value that is [null] or a string. *)
Definition falsy (x : option string) : bool :=
  match x with
  | Some "" | None => true
  | Some _ => false
  end.

(** The text V8 gives the TypeError of a property read on [undefined]. *)
Definition undefined_read (prop : string) : string :=
  "Cannot read properties of undefined (reading '" +:+ prop +:+ "')".

End Js.

(** ** Requests, responses and response bodies *)

Inductive jsval :=
| JNull
| JNum (n : Z)
| JStr (s : string).

#[global] Instance jsval_eq_dec : EqDecision jsval.
Proof. solve_decision. Defined.

(** A value that is [null] or a string, as a JSON value. *)
Definition of_nullable (x : option string) : jsval :=
  match x with
  | Some s => JStr s
  | None => JNull
  end.

(** The arguments of a [fetch] call: the address as it is given (the text
    of the first argument; [fetch] resolves one that is not absolute
    against the address of the page), the method and the object given to
    [JSON.stringify], with its properties in order.  All calls set the
    header [Content-Type: application/json]. *)
Record request := Request {
  url : string;
  method : string;
  body : list (string * jsval)
}.

#[global] Instance request_eq_dec : EqDecision request.
Proof. solve_decision. Defined.

Record timestamp := Timestamp {
  segment_id : N;
  time : string;          (* the number as it is interpolated into data-time *)
  ts_formatted_time : string;
  title : string;
  keywords : option (list string)
}.

Record wikipedia_info := WikipediaInfo {
  wiki_title : string;
  wiki_summary : string;
  wiki_url : string
}.

Record keypoint := Keypoint {
  key_point : string;
  kp_wikipedia_info : option wikipedia_info
}.

Record sentiment_info := Sentiment {
  positive_percentage : string;
  negative_percentage : string;
  total_comments : string
}.

(** The object [response.json()] resolves to; a property the body does not
    have is [None]. *)
Module Data.
Record t := Make {
  status : option string;
  error : option string;
  summary : option string;
  transcript : option string;
  formatted_time : option string;
  timestamps : option (list timestamp);
  keyPoints : option (list keypoint);
  sentiment : option sentiment_info;
  comments_sample : option (list string)
}.
End Data.

Inductive json_result :=
| BadJson (message : string)      (* response.json() rejects *)
| Json (d : Data.t).

Module Response.
Record t := Make {
  status : N;
  json : json_result
}.

(** [response.ok]: the status is in the range 200-299. *)
Definition ok (r : t) : bool := (200 <=? status r)%N && (status r <=? 299)%N.
End Response.

(** How a [fetch] settles: the promise rejects (the backend is not
    reachable) or resolves to a response. *)
Inductive outcome :=
| Rejected (message : string)
| Responded (r : Response.t).

Definition base : string := "http://localhost:5000".

(** ** Messages between the popup, the background script and the content
    script *)

(** The object given to [chrome.tabs.sendMessage]. *)
Record message := Message {
  action : string;
  msg_time : option string          (* the [time] property of navigateToTime *)
}.

(** The object given to [sendResponse]. *)
Inductive reply :=
| StatusReply (status : string) (message : option string)
| DetailsReply (id title : option string) (hasSubtitles : bool) (url : string).

(** ** Asynchronous code

    A handler that starts asynchronous work is a resumption: it performs a
    call and continues in the callback with what the call delivers. *)

Inductive proc (A : Type) : Type :=
| Ret (a : A)
| Fetch (req : request) (k : outcome → proc A)
| SendMessage (m : message) (k : option reply → proc A)
| ExecuteScript (k : proc A)
| SetTimeout (ms : N) (k : proc A).

Arguments Ret {A} a.
Arguments Fetch {A} req k.
Arguments SendMessage {A} m k.
Arguments ExecuteScript {A} k.
Arguments SetTimeout {A} ms k.

(** What the code runs against: the backend answers a request knowing the
    requests it received before, a tab answers a message or fails to
    ([None]: [chrome.runtime.lastError] is set or the response is falsy). *)
Record world := World {
  backend : list request → request → outcome;
  tab : message → option reply
}.

(** Runs a resumption to its end; the log collects the [fetch] calls in the
    order they are made. *)
Fixpoint exec {A} (w : world) (p : proc A) (log : list request) : A * list request :=
  match p with
  | Ret a => (a, log)
  | Fetch req k => exec w (k (backend w log req)) (log ++ [req])
  | SendMessage m k => exec w (k (tab w m)) log
  | ExecuteScript k => exec w k log
  | SetTimeout _ k => exec w k log
  end.

(** The first [.then] of the feature requests:
    [if (!response.ok) throw new Error(...); return response.json()].
    [inl] is the message of the error the chain rejects with. *)
Definition checked_json (r : Response.t) : string + Data.t :=
  if negb (Response.ok r)
  then inl ("API responded with status " +:+ pretty (Response.status r))
  else match Response.json r with
       | BadJson m => inl m
       | Json d => inr d
       end.

(** The first [.then] of the segment requests:
    [response => response.json()]. *)
Definition unchecked_json (r : Response.t) : string + Data.t :=
  match Response.json r with
  | BadJson m => inl m
  | Json d => inr d
  end.

(** [data.error || 'Unknown error occurred'] *)
Definition error_message (d : Data.t) : string :=
  Js.or_else (Data.error d) "Unknown error occurred".

(** ** The popup: [processFeature] and the card click handler *)

Module Popup.

(** What [resultContent.innerHTML] is set to. *)
Inductive panel :=
| Spinner
| Placeholder (feature : string)
| SummaryPanel (summary transcript : string)
| TimestampsPanel (timestamps : list timestamp)
| KeypointsPanel (keyPoints : list keypoint)
| FactcheckPanel (details : sentiment_info) (comments : list string)
| ErrorPanel (message : string).

(** The own properties of the object literal [apiEndpoints]: the
    addresses of the features that have one, by feature. *)
Definition apiEndpoints : gmap string string :=
  <["summarize" := "http://localhost:5000/api/summarize"]>
  (<["timestamps" := "http://localhost:5000/api/timestamps"]>
  (<["keypoints_wiki" := "http://localhost:5000/api/keypoints_wiki"]>
  (<["factcheck" := "http://localhost:5000/api/factcheck"]> ∅))).

(** The text [String] gives a built-in function of that name. *)
Definition native (name : string) : string :=
  "function " +:+ name +:+ "() { [native code] }".

(** The properties the object literal inherits from [Object.prototype],
    each with the text of its value: the built-in functions, and
    [__proto__], whose value is [Object.prototype] itself.  All these
    values are truthy. *)
Definition inherited : gmap string string :=
  list_to_map
    [("constructor", native "Object");
     ("hasOwnProperty", native "hasOwnProperty");
     ("isPrototypeOf", native "isPrototypeOf");
     ("propertyIsEnumerable", native "propertyIsEnumerable");
     ("toLocaleString", native "toLocaleString");
     ("toString", native "toString");
     ("valueOf", native "valueOf");
     ("__defineGetter__", native "__defineGetter__");
     ("__defineSetter__", native "__defineSetter__");
     ("__lookupGetter__", native "__lookupGetter__");
     ("__lookupSetter__", native "__lookupSetter__");
     ("__proto__", "[object Object]")].

(** [apiEndpoints[feature]], as the text [fetch] takes it for: the own
    property of that name, or else the inherited one; [None] when the
    value is [undefined]. *)
Definition endpoint (feature : string) : option string :=
  match apiEndpoints !! feature with
  | Some apiUrl => Some apiUrl
  | None => inherited !! feature
  end.

(** The two [.then] handlers and the [.catch] of a feature request, up to
    the [switch]: the panel of the error, or the data. *)
Definition settled (o : outcome) : string + Data.t :=
  match o with
  | Rejected m => inl m
  | Responded r =>
      match checked_json r with
      | inl m => inl m
      | inr d =>
          if decide (Data.status d = Some "error")
          then inl (error_message d)
          else inr d
      end
  end.

(** [case 'keypoints_wiki']: the request of its own and its handlers. *)
Definition keypoints_wiki (videoId : option string) : proc panel :=
  Fetch (Request "http://localhost:5000/api/keypoints_wiki" "POST"
           [("videoId", of_nullable videoId); ("numPoints", JNum 8)])
    (λ o, match settled o with
          | inl m => Ret (ErrorPanel m)
          | inr d =>
              match Data.keyPoints d with
              | None => Ret (ErrorPanel (Js.undefined_read "forEach"))
              | Some kps => Ret (KeypointsPanel kps)
              end
          end).

(** The [switch (feature)] of the second [.then] and what follows it. *)
Definition render (feature : string) (videoId : option string) (d : Data.t)
  : proc panel :=
  if String.eqb feature "summarize" then
    Ret (SummaryPanel (Js.interp (Data.summary d)) (Js.interp (Data.transcript d)))
  else if String.eqb feature "timestamps" then
    match Data.timestamps d with
    | None => Ret (ErrorPanel (Js.undefined_read "map"))
    | Some tss => Ret (TimestampsPanel tss)
    end
  else if String.eqb feature "keypoints_wiki" then
    keypoints_wiki videoId
  else if String.eqb feature "factcheck" then
    match Data.sentiment d with
    | None => Ret (ErrorPanel (Js.undefined_read "positive_percentage"))
    | Some details =>
        Ret (FactcheckPanel details (default [] (Data.comments_sample d)))
    end
  else Ret (Placeholder feature).

Definition processFeature (feature : string) (videoId : option string)
  : proc panel :=
  match endpoint feature with
  | None => SetTimeout 1500 (Ret (Placeholder feature))
  | Some apiUrl =>
      Fetch (Request apiUrl "POST"
               [("videoId", of_nullable videoId);
                ("minLength", JNum 150); ("maxLength", JNum 300)])
        (λ o, match settled o with
              | inl m => Ret (ErrorPanel m)
              | inr d => render feature videoId d
              end)
  end.

Definition processFeatureWithFallback (feature : string)
    (videoId : option string) : proc panel :=
  ExecuteScript (processFeature feature videoId).

(** The click handler of a card: [disabled] is whether the card has the
    class of that name, [feature] its [data-feature].  [None]: the handler
    returns at its guard; otherwise the panel it shows at once and the work
    it starts. *)
Definition cardClick (currentVideoId : option string) (disabled : bool)
    (feature : string) : option (panel * proc panel) :=
  if Js.falsy currentVideoId || disabled then None
  else Some (Spinner,
             SendMessage (Message "verifyConnection" None)
               (λ response,
                  match response with
                  | Some _ => processFeature feature currentVideoId
                  | None => processFeatureWithFallback feature currentVideoId
                  end)).

(** The requests a click on a card makes. *)
Definition posts (w : world) (currentVideoId : option string)
    (disabled : bool) (feature : string) : list request :=
  match cardClick currentVideoId disabled feature with
  | None => []
  | Some (_, p) => (exec w p []).2
  end.

End Popup.

(** ** The summary panels of a timestamp list

    After a timestamps result is rendered, every [.timestamp-item] has a
    click handler; the summary of a segment is kept in the element
    [segment-container-<id>] of the popup.  The quick timestamps block of
    the content script declares the same handlers for the overlay, with
    [quick-segment-container-<id>]; the two differ in their markup and in
    how they seek the video only.  (The block stands in a script that is
    rejected as it is, see [Content.parses]; what is said of the overlay
    is said of these handlers as they are declared.) *)

Module SegmentList.

Inductive surface :=
| PopupList          (* popup.js *)
| QuickOverlay.      (* content.js *)

(** What the [innerHTML] of the summary element was last set to: the
    loading markup, the summary or the error, with the values
    interpolated into the template. *)
Inductive summary_inner :=
| Loading
| Content (formatted_time summary : string)
| Failure (message : string).

(** A child of a container: a text node, or the summary element
    ([div.segment-summary] with the id [segment-summary-<id>], resp.
    [div.quick-segment-summary] with [quick-segment-summary-<id>]); the
    element is only ever created inside the container of its own id. *)
Inductive node :=
| Text (s : string)
| SegmentSummary (inner : summary_inner).

Record container := Container {
  children : list node;
  hidden : bool                   (* the class [hidden] *)
}.

Import Js.

(** *** Markup *)

Definition before (sf : surface) : string :=
  match sf with PopupList => line 14 "" | QuickOverlay => line 12 "" end.

Definition after (sf : surface) : string :=
  match sf with PopupList => line 12 "" | QuickOverlay => line 10 "" end.

Definition close_button (seg : N) (label : string) : string :=
  "<button class=" +:+ q +:+ "close-summary-btn" +:+ q +:+
  " data-segment-id=" +:+ q +:+ pretty seg +:+ q +:+ ">" +:+ label +:+
  "</button>".

(** The template literal assigned to the [innerHTML] of the summary
    element. *)
Definition inner_html (sf : surface) (seg : N) (inner : summary_inner)
  : string :=
  match sf, inner with
  | PopupList, Loading =>
      line 16 "<h4>Loading segment summary...</h4>" +:+
      line 16 ("<div class=" +:+ q +:+ "loading-spinner" +:+ q +:+ "></div>") +:+
      line 14 ""
  | PopupList, Content formatted_time summary =>
      line 18 ("<div class=" +:+ q +:+ "segment-summary-content" +:+ q +:+ ">") +:+
      line 20 ("<h4>Summary for " +:+ formatted_time +:+ "</h4>") +:+
      line 20 ("<p>" +:+ summary +:+ "</p>") +:+
      line 20 (close_button seg "Hide Summary") +:+
      line 18 "</div>" +:+
      line 16 ""
  | PopupList, Failure message =>
      line 16 ("<div class=" +:+ q +:+ "segment-summary-error" +:+ q +:+ ">") +:+
      line 18 "<h4>Error</h4>" +:+
      line 18 ("<p>Could not generate summary: " +:+ message +:+ "</p>") +:+
      line 18 (close_button seg "Close") +:+
      line 16 "</div>" +:+
      line 14 ""
  | QuickOverlay, Loading =>
      line 14 "<p>Loading segment summary...</p>" +:+
      line 12 ""
  | QuickOverlay, Content _ summary =>
      line 16 ("<div class=" +:+ q +:+ "quick-segment-summary-content" +:+ q +:+ ">") +:+
      line 18 ("<p><strong>Summary:</strong> " +:+ summary +:+ "</p>") +:+
      line 16 "</div>" +:+
      line 14 ""
  | QuickOverlay, Failure message =>
      line 14 ("<div class=" +:+ q +:+ "quick-segment-summary-error" +:+ q +:+ ">") +:+
      line 16 ("<p>Error: " +:+ message +:+ "</p>") +:+
      line 14 "</div>" +:+
      line 12 ""
  end.

Definition open_tag (sf : surface) (seg : N) : string :=
  match sf with
  | PopupList =>
      "<div class=" +:+ q +:+ "segment-summary" +:+ q +:+
      " id=" +:+ q +:+ "segment-summary-" +:+ pretty seg +:+ q +:+ ">"
  | QuickOverlay =>
      "<div class=" +:+ q +:+ "quick-segment-summary" +:+ q +:+
      " id=" +:+ q +:+ "quick-segment-summary-" +:+ pretty seg +:+ q +:+ ">"
  end.

(** The markup of a child; the interpolated values are taken as text. *)
Definition serialize (sf : surface) (seg : N) (n : node) : string :=
  match n with
  | Text s => s
  | SegmentSummary inner =>
      open_tag sf seg +:+ inner_html sf seg inner +:+ "</div>"
  end.

(** [summaryContainer.innerHTML] *)
Definition innerHTML (sf : surface) (seg : N) (c : container) : string :=
  foldr (λ n s, serialize sf seg n +:+ s) "" (children c).

(** The children the container has after
    [summaryContainer.innerHTML = `...`] with the loading markup. *)
Definition loading_children (sf : surface) : list node :=
  [Text (before sf); SegmentSummary Loading; Text (after sf)].

(** *** State *)

(** The variable [currentVideoId] is the one the handlers read when they
    run: the variable of the popup (popup.js 11, read at 420), resp. the
    global of the content script (content.js 2, read at 352).  The
    requests in flight and the requests made are those of the whole
    document, whichever list their handlers were registered for: a list
    that is rendered anew cancels nothing. *)
Record state := State {
  currentVideoId : option string;
  containers : gmap N container;  (* the containers in the document, by id *)
  inflight : list N;              (* the segment requests not yet settled *)
  sent : list request;            (* the [fetch] calls made, in order *)
  navigations : list string       (* the times the video was sought to *)
}.

Definition segment_request (videoId : option string) (seg : N) : request :=
  Request "http://localhost:5000/api/segment_summary" "POST"
    [("videoId", of_nullable videoId); ("segmentId", JNum (Z.of_N seg))].

Definition toggle (c : container) : container :=
  Container (children c) (negb (hidden c)).

(** The click handler of a [.timestamp-item] whose [data-time] is [time]
    and whose [data-segment-id] is [seg].  When no container has the id,
    the handler ends in a TypeError after it has sought the video. *)
Definition timestampClick (sf : surface) (time : string) (seg : N)
    (st : state) : state :=
  let navigations' := navigations st ++ [time] in
  match containers st !! seg with
  | None =>
      State (currentVideoId st) (containers st) (inflight st) (sent st)
        navigations'
  | Some summaryContainer =>
      if negb (String.eqb (trim (innerHTML sf seg summaryContainer)) "")
      then
        State (currentVideoId st)
          (<[seg := toggle summaryContainer]> (containers st))
          (inflight st) (sent st) navigations'
      else
        State (currentVideoId st)
          (<[seg := Container (loading_children sf) (hidden summaryContainer)]>
             (containers st))
          (inflight st ++ [seg])
          (sent st ++ [segment_request (currentVideoId st) seg])
          navigations'
  end.

(** What the handlers of a segment request write: the two [.then] and the
    [.catch].  The markup of the overlay has no place for the formatted
    time, which is left empty there. *)
Definition settled (sf : surface) (o : outcome) : summary_inner :=
  match o with
  | Rejected m => Failure m
  | Responded r =>
      match unchecked_json r with
      | inl m => Failure m
      | inr d =>
          if decide (Data.status d = Some "success")
          then Content
                 (match sf with
                  | PopupList => interp (Data.formatted_time d)
                  | QuickOverlay => ""
                  end)
                 (interp (Data.summary d))
          else Failure (error_message d)
      end
  end.

(** [document.getElementById(`segment-summary-${segmentId}`).innerHTML = ...]
    on the children of the container; nothing changes when the element is
    not there (the handler and then the [.catch] end in a TypeError). *)
Fixpoint write_summary (inner : summary_inner) (l : list node) : list node :=
  match l with
  | [] => []
  | Text s :: l' => Text s :: write_summary inner l'
  | SegmentSummary _ :: l' => SegmentSummary inner :: l'
  end.

Definition write (inner : summary_inner) (c : container) : container :=
  Container (write_summary inner (children c)) (hidden c).

(** The [i]-th request in flight settles with [o]. *)
Definition settle (sf : surface) (i : nat) (o : outcome) (st : state)
  : state :=
  match inflight st !! i with
  | None => st
  | Some seg =>
      State (currentVideoId st)
        (alter (write (settled sf o)) seg (containers st))
        (delete i (inflight st)) (sent st) (navigations st)
  end.

Fixpoint summary_of (l : list node) : option summary_inner :=
  match l with
  | [] => None
  | Text _ :: l' => summary_of l'
  | SegmentSummary inner :: _ => Some inner
  end.

(** Whether the container shows a [.close-summary-btn]: the popup's
    summary and error markup have one. *)
Definition has_close_button (sf : surface) (c : container) : bool :=
  match sf, summary_of (children c) with
  | PopupList, Some (Content _ _) | PopupList, Some (Failure _) => true
  | _, _ => false
  end.

(** The click handler of the close button (it stops the propagation of
    the event, so the handler of the item does not run). *)
Definition closeClick (sf : surface) (seg : N) (st : state) : state :=
  match containers st !! seg with
  | Some c =>
      if has_close_button sf c
      then State (currentVideoId st)
             (<[seg := Container (children c) true]> (containers st))
             (inflight st) (sent st) (navigations st)
      else st
  | None => st
  end.

Inductive event :=
| TimestampClick (time : string) (seg : N)
| Settle (i : nat) (o : outcome)
| CloseClick (seg : N).

Definition step (sf : surface) (e : event) (st : state) : state :=
  match e with
  | TimestampClick time seg => timestampClick sf time seg st
  | Settle i o => settle sf i o st
  | CloseClick seg => closeClick sf seg st
  end.

(** A document without a list in which nothing was requested yet. *)
Definition initial (videoId : option string) : state :=
  State videoId ∅ [] [] [].

(** The containers of a list as it is rendered: an empty one for every
    segment of the result. *)
Definition fresh (tss : list timestamp) : gmap N container :=
  list_to_map ((λ ts, (segment_id ts, Container [] false)) <$> tss).

(** [resultContent.innerHTML = ...] with the markup of a panel: the
    containers there were are gone, and a timestamps panel brings those
    of its list.  The requests in flight stay in flight; their handlers
    will look for their element by its id in the document as it is
    then. *)
Definition display (p : Popup.panel) (st : state) : state :=
  State (currentVideoId st)
    (match p with
     | Popup.TimestampsPanel tss => fresh tss
     | _ => ∅
     end)
    (inflight st) (sent st) (navigations st).

(** The observer of the content script assigns the global (content.js
    42), to an id that is not empty (the guard at 41). *)
Definition assign (newVideoId : string) (st : state) : state :=
  State (Some newVideoId) (containers st) (inflight st) (sent st)
    (navigations st).

(** The events of the overlay's list on the page. *)
Inductive overlay_event :=
| OnOverlay (e : event)
| Assigned (newVideoId : string).

Definition overlay_step (oe : overlay_event) (st : state) : state :=
  match oe with
  | OnOverlay e => step QuickOverlay e st
  | Assigned newVideoId => assign newVideoId st
  end.

(** *** The cache the containers form *)

Inductive entry :=
| pending
| ready (formatted_time summary : string)
| failed (message : string).

Definition entry_of (c : container) : option entry :=
  match summary_of (children c) with
  | None => None
  | Some Loading => Some pending
  | Some (Content formatted_time summary) => Some (ready formatted_time summary)
  | Some (Failure message) => Some (failed message)
  end.

(** The cache entry of a segment: [None] when there is none. *)
Definition lookup (st : state) (seg : N) : option entry :=
  containers st !! seg ≫= entry_of.

(** The number of requests in flight for a segment. *)
Definition in_flight (st : state) (seg : N) : nat :=
  length (filter (λ s, s = seg) (inflight st)).

(** The number of requests made for the summary of a segment. *)
Definition requested (st : state) (seg : N) : nat :=
  length (filter (λ r, url r = "http://localhost:5000/api/segment_summary" ∧
                       ("segmentId", JNum (Z.of_N seg)) ∈ body r) (sent st)).

(** *** What the back button does to the containers *)

Definition is_text (n : node) : bool :=
  match n with Text _ => true | SegmentSummary _ => false end.

(** [element.remove()] for every [.segment-summary] *)
Definition remove_summaries (c : container) : container :=
  Container (filter is_text (children c)) (hidden c).

End SegmentList.

(** ** The content script *)

Module Content.

(** *** The script as the parser takes it

    A content script is run as a script: before any of it runs, the
    whole text is parsed, and an early error rejects all of it. *)

(** A statement at the top level of a script, as far as that early error
    goes: a declaration (of a variable or of a function, whose body is a
    scope of its own), a call, an [if] with its two blocks, and
    [return]. *)
#[local] Unset Elimination Schemes.
Inductive statement :=
| Declaration (name : string)
| Call (callee : string)
| If (consequent alternate : list statement)
| Return.
#[local] Set Elimination Schemes.

(** The top level of content.js, statement by statement. *)
Definition content_js : list statement :=
  [Declaration "currentVideoId";                   (* 2 *)
   Declaration "currentVideoTitle";                (* 3 *)
   Declaration "subtitlesText";                    (* 4 *)
   Declaration "initialize";                       (* 7-32 *)
   Declaration "observeVideoChanges";              (* 34-61 *)
   Call "chrome.runtime.onMessage.addListener";    (* 63-272 *)
   If [Call "console.log";                         (* 275-392 *)
       Call "displayQuickResult";
       Call "fetch";
       Call "sendResponse";
       Return]                                     (* 391 *)
      [];
   Call "sendResponse";                            (* 395 *)
   Return;                                         (* 396 *)
   Declaration "displayQuickResult";               (* 399-543 *)
   Declaration "updateQuickResult";                (* 546-555 *)
   Declaration "removeQuickResult";                (* 558-563 *)
   Declaration "navigateToVideoTime";              (* 566-626 *)
   If [Call "initialize"]                          (* 629-633 *)
      [Call "window.addEventListener"]].

(** A [return] that is not in the body of a function: a SyntaxError. *)
Fixpoint illegal_return (s : statement) : bool :=
  match s with
  | Return => true
  | If consequent alternate =>
      existsb illegal_return consequent || existsb illegal_return alternate
  | Declaration _ | Call _ => false
  end.

(** Whether a script is accepted and run. *)
Definition parses (script : list statement) : bool :=
  negb (existsb illegal_return script).

(** *** The declarations of the script *)

(** What the script reads from the page. *)
Record page := Page {
  href : string;                    (* window.location.href *)
  search : list (string * string);  (* the parameters of window.location.search *)
  titleElement : option string;     (* the textContent of the element the
                                       title selector finds, if any *)
  video : bool                      (* whether there is a video element *)
}.

(** The globals of the script. *)
Record state := State {
  currentVideoId : option string;
  currentVideoTitle : option string;
  subtitlesText : option string;
  observing : bool;                 (* the MutationObserver is installed *)
  ytNlpAssistantLoaded : bool
}.

Definition initial : state := State None None None false false.

(** [new URLSearchParams(...).get(name)]: the first value of the name, or
    [null]. *)
Definition get (name : string) (params : list (string * string))
  : option string :=
  snd <$> List.find (λ kv, String.eqb kv.1 name) params.

(** What [updateQuickResult] is given. *)
Inductive quick_result :=
| QuickSummary (summary : string)
| QuickKeyPoints (keyPoints : list keypoint)
| QuickError (what message : string).

(** What the listener does with a message: the globals afterwards, the
    object given to [sendResponse] (if it is called), the time given to
    [navigateToVideoTime] and the asynchronous work started. *)
Record handled := Handled {
  globals : state;
  response : option reply;
  sought : option (option string);
  started : option (proc quick_result)
}.

(** The two [.then] handlers of a quick action, up to the markup. *)
Definition settled (o : outcome) : string + Data.t :=
  match o with
  | Rejected m => inl m
  | Responded r =>
      match checked_json r with
      | inl m => inl m
      | inr d =>
          if decide (Data.status d = Some "success")
          then inr d
          else inl (error_message d)
      end
  end.

Definition quickSummarize (st : state) : proc quick_result :=
  Fetch (Request "http://localhost:5000/api/summarize" "POST"
           [("videoId", of_nullable (currentVideoId st));
            ("minLength", JNum 100); ("maxLength", JNum 200)])
    (λ o, match settled o with
          | inl m => Ret (QuickError "Error generating summary: " m)
          | inr d => Ret (QuickSummary (Js.interp (Data.summary d)))
          end).

Definition quickKeyPointsWiki (st : state) : proc quick_result :=
  Fetch (Request "http://localhost:5000/api/keypoints_wiki" "POST"
           [("videoId", of_nullable (currentVideoId st));
            ("numPoints", JNum 5)])
    (λ o, match settled o with
          | inl m => Ret (QuickError "Error generating key points: " m)
          | inr d =>
              match Data.keyPoints d with
              | None => Ret (QuickError "Error generating key points: "
                               (Js.undefined_read "forEach"))
              | Some kps => Ret (QuickKeyPoints kps)
              end
          end).

(** The function given to [chrome.runtime.onMessage.addListener]; it ends
    at line 272, before the statements under the comment "Handle quick
    timestamps request" and "Default response for unknown actions". *)
Definition listener (request : message) (pg : page) (st : state) : handled :=
  if String.eqb (action request) "navigateToTime" then
    Handled st
      (Some (StatusReply (if video pg then "success" else "error") None))
      (Some (msg_time request)) None
  else if String.eqb (action request) "getVideoDetails" then
    let st' :=
      if Js.falsy (currentVideoTitle st) ||
         bool_decide (currentVideoTitle st = Some "YouTube Video")
      then match titleElement pg with
           | Some text =>
               State (currentVideoId st) (Some (Js.trim text))
                 (subtitlesText st) (observing st) (ytNlpAssistantLoaded st)
           | None => st
           end
      else st in
    Handled st'
      (Some (DetailsReply (currentVideoId st') (currentVideoTitle st')
               (negb (Js.falsy (subtitlesText st'))) (href pg)))
      None None
  else if String.eqb (action request) "verifyConnection" then
    Handled st (Some (StatusReply "connected" None)) None None
  else if String.eqb (action request) "quickSummarize" then
    Handled st (Some (StatusReply "processing" None)) None
      (Some (quickSummarize st))
  else if String.eqb (action request) "quickKeyPointsWiki" then
    Handled st (Some (StatusReply "processing" None)) None
      (Some (quickKeyPointsWiki st))
  else Handled st None None None.

(** What the sender of a message to the tab gets back, with the script
    injected as it is: the object the listener gives to [sendResponse];
    [None] when no listener is registered or the listener does not
    respond ([chrome.runtime.lastError] is set). *)
Definition answer (m : message) (pg : page) (st : state) : option reply :=
  if parses content_js then response (listener m pg st) else None.

(** The requests a message to the tab ends in. *)
Definition posts (w : world) (m : message) (pg : page) (st : state)
  : list request :=
  if parses content_js
  then match started (listener m pg st) with
       | None => []
       | Some p => (exec w p []).2
       end
  else [].

Section PageContext.

(** [tryGetSubtitles] is called by [initialize] and by the observer but
    is not defined in the script; it is taken as given, and what it
    finds is the value of [subtitlesText]. *)
Variable tryGetSubtitles : page → option string.

(** [initialize], as it is declared. *)
Definition initialize (pg : page) (st : state) : state :=
  if Js.includes "youtube.com/watch" (href pg) then
    State (get "v" (search pg))
      (match titleElement pg with
       | Some text => Some (Js.trim text)
       | None => Some "YouTube Video"
       end)
      (tryGetSubtitles pg) true true
  else
    State (currentVideoId st) (currentVideoTitle st) (subtitlesText st)
      (observing st) true.

(** The body of [mutations.forEach] in the observer's callback. *)
Definition onMutation (pg : page) (st : state) : state :=
  if Js.includes "youtube.com/watch" (href pg) then
    let newVideoId := get "v" (search pg) in
    if negb (Js.falsy newVideoId) &&
       negb (bool_decide (newVideoId = currentVideoId st))
    then
      State newVideoId
        (match titleElement pg with
         | Some text => Some (Js.trim text)
         | None => currentVideoTitle st
         end)
        (tryGetSubtitles pg) (observing st) (ytNlpAssistantLoaded st)
    else st
  else st.

(** The callback of the MutationObserver, for a batch of [n] mutation
    records; it runs only when [observeVideoChanges] installed it. *)
Definition observed (n : nat) (pg : page) (st : state) : state :=
  if observing st then Nat.iter n (onMutation pg) st else st.

(** The script injected into a page: the globals once the last statement
    (629-633) has called [initialize]; [None] when the script is rejected
    and there are no globals, no observer and no listener. *)
Definition load (pg : page) : option state :=
  if parses content_js then Some (initialize pg initial) else None.

End PageContext.

End Content.

(** ** The popup's page context *)

Module PopupContext.

(** The tab [chrome.tabs.query] reports. *)
Record tab_info := Tab {
  tab_url : option string;
  searchParams : list (string * string)
}.

Record state := State {
  currentVideoId : option string;
  cards_disabled : bool
}.

Definition initial : state := State None false.

(** The callback of the first [chrome.tabs.query]. *)
Definition tabQueried (t : tab_info) (st : state) : state :=
  match tab_url t with
  | Some u =>
      if negb (Js.falsy (Some u)) && Js.includes "youtube.com/watch" u
      then State (Content.get "v" (searchParams t)) (cards_disabled st)
      else State (currentVideoId st) true
  | None => State (currentVideoId st) true
  end.

(** A click on a card in this context. *)
Definition click (w : world) (feature : string) (st : state) : list request :=
  Popup.posts w (currentVideoId st) (cards_disabled st) feature.

End PopupContext.

(** ** The popup while it is open

    The document of the popup takes a click on a card, on the back button
    and on the items of the list it shows, and the callbacks of the work
    the cards started, in any order. *)

Module Session.

(** The variable [currentVideoId], the list in [resultContent] and the
    requests (in [shown]); whether the cards have the class [disabled];
    the class [hidden] of the two parts of the popup; and the chains of
    callbacks that wait for what they asked for, each with its
    continuation. *)
Record state := State {
  shown : SegmentList.state;
  cards_disabled : bool;
  toolsGrid_hidden : bool;
  resultContainer_hidden : bool;
  waiting : list (proc Popup.panel)
}.

(** The popup once the callback of the first [chrome.tabs.query] has
    run.  (Which of its parts the markup of the popup hides at first is
    not in the script; without a list in the document it has no
    bearing.) *)
Definition opened (t : PopupContext.tab_info) : state :=
  let c := PopupContext.tabQueried t PopupContext.initial in
  State (SegmentList.initial (PopupContext.currentVideoId c))
    (PopupContext.cards_disabled c) false true [].

(** [fetch(...)]: the call is made. *)
Definition called (req : request) (l : SegmentList.state) : SegmentList.state :=
  SegmentList.State (SegmentList.currentVideoId l) (SegmentList.containers l)
    (SegmentList.inflight l) (SegmentList.sent l ++ [req])
    (SegmentList.navigations l).

(** Runs a chain up to the call it waits for next; a chain that ends
    sets [resultContent.innerHTML]. *)
Fixpoint advance (p : proc Popup.panel) (st : state) : state :=
  match p with
  | Ret panel =>
      State (SegmentList.display panel (shown st)) (cards_disabled st)
        (toolsGrid_hidden st) (resultContainer_hidden st) (waiting st)
  | Fetch req k =>
      State (called req (shown st)) (cards_disabled st)
        (toolsGrid_hidden st) (resultContainer_hidden st)
        (waiting st ++ [Fetch req k])
  | SendMessage m k =>
      State (shown st) (cards_disabled st)
        (toolsGrid_hidden st) (resultContainer_hidden st)
        (waiting st ++ [SendMessage m k])
  | ExecuteScript k => advance k st
  | SetTimeout ms k =>
      State (shown st) (cards_disabled st)
        (toolsGrid_hidden st) (resultContainer_hidden st)
        (waiting st ++ [SetTimeout ms k])
  end.

(** What a waiting chain is called back with. *)
Inductive input :=
| Answered (o : outcome)           (* a [fetch] settles *)
| Replied (r : option reply)       (* the callback of [sendMessage] *)
| Elapsed.                         (* the callback of [setTimeout] *)

(** The [i]-th waiting chain is called back. *)
Definition resume (i : nat) (x : input) (st : state) : state :=
  let st' := State (shown st) (cards_disabled st) (toolsGrid_hidden st)
               (resultContainer_hidden st) (delete i (waiting st)) in
  match waiting st !! i, x with
  | Some (Fetch _ k), Answered o => advance (k o) st'
  | Some (SendMessage _ k), Replied r => advance (k r) st'
  | Some (SetTimeout _ k), Elapsed => advance k st'
  | _, _ => st
  end.

(** The click handler of a card (popup.js 63-93). *)
Definition cardClick (feature : string) (st : state) : state :=
  match Popup.cardClick (SegmentList.currentVideoId (shown st))
          (cards_disabled st) feature with
  | None => st
  | Some (panel, p) =>
      advance p
        (State (SegmentList.display panel (shown st)) (cards_disabled st)
           true false (waiting st))
  end.

(** The click handler of the back button (popup.js 135-142). *)
Definition backButtonClick (st : state) : state :=
  State
    (SegmentList.State (SegmentList.currentVideoId (shown st))
       (SegmentList.remove_summaries <$> SegmentList.containers (shown st))
       (SegmentList.inflight (shown st)) (SegmentList.sent (shown st))
       (SegmentList.navigations (shown st)))
    (cards_disabled st) false true (waiting st).

Inductive event :=
| CardClick (feature : string)
| BackClick
| OnList (e : SegmentList.event)
| Resume (i : nat) (x : input).

Definition is_click (e : SegmentList.event) : bool :=
  match e with
  | SegmentList.TimestampClick _ _ | SegmentList.CloseClick _ => true
  | SegmentList.Settle _ _ => false
  end.

(** A request settles whatever the popup shows; a click reaches an item
    or a close button only while the result container is shown (the class
    [hidden] is [display: none] in the style the extension gives it). *)
Definition step (e : event) (st : state) : state :=
  match e with
  | CardClick feature => cardClick feature st
  | BackClick => backButtonClick st
  | OnList e =>
      if is_click e && resultContainer_hidden st then st
      else State (SegmentList.step SegmentList.PopupList e (shown st))
             (cards_disabled st) (toolsGrid_hidden st)
             (resultContainer_hidden st) (waiting st)
  | Resume i x => resume i x st
  end.

Definition run (es : list event) (st : state) : state :=
  foldl (λ st e, step e st) st es.

End Session.

(** ** The background script *)

Module Background.

(** The listener of [chrome.contextMenus.onClicked]: the message it sends
    to the tab, if any. *)
Definition onClicked (menuItemId : string) : option message :=
  if String.eqb menuItemId "quick-summarize"
  then Some (Message "quickSummarize" None)
  else if String.eqb menuItemId "quick-timestamps"
  then Some (Message "quickTimestamps" None)
  else None.

(** What a click on a menu item comes back with from the tab. *)
Definition menuAnswer (menuItemId : string) (pg : Content.page)
    (st : Content.state) : option reply :=
  onClicked menuItemId ≫= λ m, Content.answer m pg st.

(** The requests a click on a menu item ends in. *)
Definition menuPosts (w : world) (menuItemId : string) (pg : Content.page)
    (st : Content.state) : list request :=
  match onClicked menuItemId with
  | Some m => Content.posts w m pg st
  | None => []
  end.

End Background.

(** ** The overlay of the content script, as it is declared *)

Module Page.

(** What the element [yt-nlp-assistant-content] shows: the spinner with
    its message, or what [updateQuickResult] was given. *)
Inductive overlay_content :=
| LoadingMessage (loadingMessage : string)
| Result (resultHtml : Content.quick_result).

(** A child of [document.body]: an element that is not the overlay, or
    the overlay [yt-nlp-assistant-overlay] with its [data-result-type]. *)
Inductive body_node :=
| Foreign (tag : string)
| Overlay (resultType : string) (content : overlay_content).

Record dom := Dom {
  body : list body_node;
  styles : nat                     (* the style elements appended to the head *)
}.

Definition is_overlay (n : body_node) : bool :=
  match n with Overlay _ _ => true | Foreign _ => false end.

(** [document.body.removeChild] of the first overlay, if there is one. *)
Fixpoint remove_overlay (l : list body_node) : list body_node :=
  match l with
  | [] => []
  | Overlay _ _ :: l' => l'
  | n :: l' => n :: remove_overlay l'
  end.

Definition removeQuickResult (d : dom) : dom :=
  Dom (remove_overlay (body d)) (styles d).

Definition displayQuickResult (loadingMessage resultType : string) (d : dom)
  : dom :=
  let d' := removeQuickResult d in
  Dom (body d' ++ [Overlay resultType (LoadingMessage loadingMessage)])
      (S (styles d')).

(** [content.innerHTML = resultHtml] on the content element of the first
    overlay; nothing when there is none. *)
Fixpoint write_overlay (resultHtml : Content.quick_result)
    (l : list body_node) : list body_node :=
  match l with
  | [] => []
  | Overlay resultType _ :: l' => Overlay resultType (Result resultHtml) :: l'
  | n :: l' => n :: write_overlay resultHtml l'
  end.

Definition updateQuickResult (resultHtml : Content.quick_result) (d : dom)
  : dom :=
  Dom (write_overlay resultHtml (body d)) (styles d).

(** The calls the script makes on the overlay: a quick action starts with
    [displayQuickResult] and ends with [updateQuickResult]; the close
    button calls [removeQuickResult]. *)
Inductive call :=
| Display (loadingMessage resultType : string)
| Update (resultHtml : Content.quick_result)
| Remove.

Definition perform (c : call) (d : dom) : dom :=
  match c with
  | Display loadingMessage resultType =>
      displayQuickResult loadingMessage resultType d
  | Update resultHtml => updateQuickResult resultHtml d
  | Remove => removeQuickResult d
  end.

Definition performs (cs : list call) (d : dom) : dom :=
  foldl (λ d c, perform c d) d cs.

(** The number of overlays in the document, and its other elements. *)
Definition overlays (d : dom) : nat :=
  length (filter (λ n, is_overlay n = true) (body d)).

Definition foreign (d : dom) : list body_node :=
  filter (λ n, is_overlay n = false) (body d).

Definition is_display (c : call) : bool :=
  match c with Display _ _ => true | _ => false end.

(** The number of [displayQuickResult] calls among the calls. *)
Definition displays (cs : list call) : nat :=
  length (filter (λ c, is_display c = true) cs).

(** The overlay the document shows, if any. *)
Definition overlay (d : dom) : option (string * overlay_content) :=
  match filter (λ n, is_overlay n = true) (body d) with
  | Overlay resultType content :: _ => Some (resultType, content)
  | _ => None
  end.

End Page.

(** ** The title the popup shows *)

Module PopupTitle.

(** How [chrome.scripting.executeScript] ends: it throws, or its callback
    gets [results[0].result], the trimmed text of the title element or
    [null]. *)
Inductive script :=
| Throws
| Returns (result : option string).

Record shown := Shown {
  textContent : string;               (* of [videoTitleElement] *)
  currentVideoTitle : option string;
  currentVideoId : option string;
  cards_disabled : bool
}.

(** The callback of the first [chrome.tabs.query], with the callbacks it
    registers: [details] is what the content script answers to
    [getVideoDetails] ([None]: [chrome.runtime.lastError] is set or there
    is no response), the title of its answer. *)
Definition tabQueried (t : PopupContext.tab_info) (s : script)
    (details : option (option string)) : shown :=
  let st := PopupContext.tabQueried t PopupContext.initial in
  let id := PopupContext.currentVideoId st in
  let disabled := PopupContext.cards_disabled st in
  if disabled then Shown "Not a YouTube video page" None id disabled
  else
    match s with
    | Throws => Shown "Video detected - Ready to analyze" None id disabled
    | Returns result =>
        if negb (Js.falsy result)
        then Shown (Js.interp result) result id disabled
        else
          match details with
          | None => Shown "YouTube NLP Assistant - Ready" None id disabled
          | Some title =>
              if negb (Js.falsy title)
              then Shown (Js.interp title) title id disabled
              else Shown "Video detected - Title unavailable" None id disabled
          end
    end.

(** The title in the answer of the content script. *)
Definition title_of (r : option reply) : option (option string) :=
  match r with
  | Some (DetailsReply _ title _ _) => Some title
  | Some (StatusReply _ _) => Some None
  | None => None
  end.

End PopupTitle.

(** ** The transcript of a summary and the comments of a fact check *)

Module Transcript.

(** The container of the transcript and the button above it. *)
Record state := State {
  hidden : bool;                    (* the class [hidden] of the container *)
  label : string                    (* the text of the button *)
}.

(** As the summary is rendered. *)
Definition rendered : state := State true "Show Full Transcript".

(** The click handler of [show-transcript]. *)
Definition click (st : state) : state :=
  if hidden st then State false "Hide Full Transcript"
  else State true "Show Full Transcript".

End Transcript.

Module Comments.
Import Js.

Definition no_comments : string :=
  "<div class=" +:+ q +:+ "no-comments" +:+ q +:+
  ">No comments available</div>".

Definition comment_item (comment : string) : string :=
  line 12 ("<div class=" +:+ q +:+ "comment-item" +:+ q +:+ ">") +:+
  line 14 ("<p class=" +:+ q +:+ "comment-text" +:+ q +:+ ">" +:+ comment +:+
           "</p>") +:+
  line 12 "</div>" +:+
  line 10 "".

(** [generateCommentsHTML] *)
Definition generateCommentsHTML (comments : list string) : string :=
  match comments with
  | [] => no_comments
  | _ => foldr (λ c s, comment_item c +:+ s) "" comments
  end.

(** The markup of the comments of a fact check:
    [generateCommentsHTML(data.comments_sample || [])]. *)
Definition comments_html (d : Data.t) : string :=
  generateCommentsHTML (default [] (Data.comments_sample d)).

End Comments.

(** ** Runs of a list *)

(** The handlers of a list, one event after the other. *)
Definition list_run (sf : SegmentList.surface) (es : list SegmentList.event)
    (st : SegmentList.state) : SegmentList.state :=
  foldl (λ st e, SegmentList.step sf e st) st es.

(** The events of the overlay's list, one after the other. *)
Definition overlay_run (oes : list SegmentList.overlay_event)
    (st : SegmentList.state) : SegmentList.state :=
  foldl (λ st oe, SegmentList.overlay_step oe st) st oes.

(** A request of the extension: a POST to an address under
    [http://localhost:5000/api/]. *)
Definition local (r : request) : Prop :=
  method r = "POST" ∧ String.prefix (base +:+ "/api/") (url r) = true.

(** ** The inputs the properties are evaluated at, and the predicates
    they are stated with *)

Section Inputs.
Import SegmentList.

(** The children of a container that shows the summary element. *)
Definition shape (sf : surface) (inner : summary_inner) : list node :=
  [Text (before sf); SegmentSummary inner; Text (after sf)].

(** A timestamps result with one segment, and the body of its summary. *)
Definition intro_segment : timestamp :=
  Timestamp 0 "12.5" "0:12" "Intro" (Some ["hello"]).

Definition summary_body : Data.t :=
  Data.Make (Some "success") None (Some "An introduction.") None
    (Some "0:12") None None None None.

(** A list with one segment whose summary was requested and has not
    arrived. *)
Definition summary_pending : state :=
  timestampClick PopupList "12.5" 0
    (display (Popup.TimestampsPanel [intro_segment]) (initial (Some "abc"))).

(** The same list once the summary has arrived. *)
Definition summary_ready : state :=
  settle PopupList 0 (Responded (Response.Make 200 (Json summary_body)))
    summary_pending.

End Inputs.

(** The body [processFeature] sends, whatever the feature. *)
Definition generic_body (videoId : option string) : list (string * jsval) :=
  [("videoId", of_nullable videoId);
   ("minLength", JNum 150); ("maxLength", JNum 300)].

(** A success body with the payload of every feature. *)
Definition success_body : Data.t :=
  Data.Make (Some "success") None (Some "A summary.") (Some "A transcript.")
    (Some "0:12") (Some [intro_segment]) (Some [])
    (Some (Sentiment "60" "40" "25")) (Some []).

(** A backend that answers every request with status 200 and that body,
    and a tab whose content script answers. *)
Definition willing : world :=
  World (λ _ _, Responded (Response.Make 200 (Json success_body)))
        (λ _, Some (StatusReply "connected" None)).

(** The answer of a backend that failed on a segment summary. *)
Definition internal_error : outcome :=
  Responded
    (Response.Make 500
       (Json (Data.Make (Some "error") (Some "Internal error")
                None None None None None None None))).

(** A body whose status is neither "success" nor "error". *)
Definition odd_status_body : Data.t :=
  Data.Make (Some "failed") (Some "quota exceeded")
    None None None None None None None.

(** The tab of a video, and the click and the callbacks that bring the
    popup opened on it to show the timestamp list of the video: the tab
    does not answer [verifyConnection], the backend answers the
    request. *)
Definition watch_tab : PopupContext.tab_info :=
  PopupContext.Tab (Some "https://www.youtube.com/watch?v=abc") [("v", "abc")].

Definition timestamps_shown : list Session.event :=
  [Session.CardClick "timestamps";
   Session.Resume 0 (Session.Replied None);
   Session.Resume 0
     (Session.Answered (Responded (Response.Make 200 (Json success_body))))].

Definition summary_arrives : Session.event :=
  Session.OnList
    (SegmentList.Settle 0
       (Responded (Response.Make 200 (Json summary_body)))).

(** The popup after the summary of the one segment of its list has
    arrived. *)
Definition summary_shown : Session.state :=
  Session.run
    (timestamps_shown ++
     [Session.OnList (SegmentList.TimestampClick "12.5" 0); summary_arrives])
    (Session.opened watch_tab).

(** The popup after an item was clicked, the back button was clicked
    before the summary arrived, the list was asked for and rendered anew,
    and the item was clicked again. *)
Definition clicked_again : Session.state :=
  Session.run
    (timestamps_shown ++
     [Session.OnList (SegmentList.TimestampClick "12.5" 0);
      Session.BackClick] ++
     timestamps_shown ++
     [Session.OnList (SegmentList.TimestampClick "12.5" 0)])
    (Session.opened watch_tab).

Section Pages.
Import Content.

(** A watch page on which the title selector finds no element. *)
Definition second_page : page :=
  Page "https://www.youtube.com/watch?v=bbb" [("v", "bbb")] None true.

End Pages.

(** The video id the observer takes from a page: the [v] parameter of a
    watch page, when it is not empty. *)
Definition observed_id (pg : Content.page) : option string :=
  if Js.includes "youtube.com/watch" (Content.href pg) &&
     negb (Js.falsy (Content.get "v" (Content.search pg)))
  then Content.get "v" (Content.search pg) else None.

(** The entry a settled request leaves. *)
Definition entry_written (inner : SegmentList.summary_inner)
  : SegmentList.entry :=
  match inner with
  | SegmentList.Loading => SegmentList.pending
  | SegmentList.Content formatted_time summary =>
      SegmentList.ready formatted_time summary
  | SegmentList.Failure message => SegmentList.failed message
  end.

(** A resumption that sends no message to a tab. *)
Inductive silent {A} : proc A → Prop :=
| silent_ret a : silent (Ret a)
| silent_fetch req k : (∀ o, silent (k o)) → silent (Fetch req k)
| silent_script k : silent k → silent (ExecuteScript k)
| silent_timeout ms k : silent k → silent (SetTimeout ms k).

(** Every request a resumption can come to make has the property. *)
Inductive chain_all {A} (P : request → Prop) : proc A → Prop :=
| chain_ret a : chain_all P (Ret a)
| chain_fetch req k :
    P req → (∀ o, chain_all P (k o)) → chain_all P (Fetch req k)
| chain_message m k : (∀ r, chain_all P (k r)) → chain_all P (SendMessage m k)
| chain_script k : chain_all P k → chain_all P (ExecuteScript k)
| chain_timeout ms k : chain_all P k → chain_all P (SetTimeout ms k).

(** Every request the popup has made, and every request a waiting chain
    can come to make, has the property; and so has every request for the
    summary of a segment, unless nothing waits and the document has no
    container. *)
Definition guarded (P : request → Prop) (s : Session.state) : Prop :=
  Forall P (SegmentList.sent (Session.shown s)) ∧
  Forall (chain_all P) (Session.waiting s) ∧
  ((∀ seg, P (SegmentList.segment_request
                (SegmentList.currentVideoId (Session.shown s)) seg)) ∨
   (Session.waiting s = [] ∧
    ∀ seg, SegmentList.containers (Session.shown s) !! seg = None)).

(** The clicks on a card among the events. *)
Definition clicked (feature : string) (es : list Session.event) : Prop :=
  Session.CardClick feature ∈ es.

(** The ways the request of a feature fails, with the message of the
    error: the fetch rejects, the status is outside 200-299, the body is
    not JSON, or the body has the status "error". *)
Inductive failure : outcome → string → Prop :=
| failure_rejected m : failure (Rejected m) m
| failure_status r :
    Response.ok r = false →
    failure (Responded r)
      ("API responded with status " +:+ pretty (Response.status r))
| failure_json r m :
    Response.ok r = true → Response.json r = BadJson m →
    failure (Responded r) m
| failure_body r d :
    Response.ok r = true → Response.json r = Json d →
    Data.status d = Some "error" →
    failure (Responded r) (error_message d).

(** * Properties *)

(** ** Strings *)

Section JsFacts.
Import Js.

Lemma append_cons c s t : String c s +:+ t = String c (s +:+ t).
Proof. reflexivity. Qed.

Lemma prefix_refl s : String.prefix s s = true.
Proof. induction s as [|c s IH]; simpl; [done|]. by destruct (ascii_dec c c). Qed.

Lemma prefix_append s t : String.prefix s (s +:+ t) = true.
Proof.
  induction s as [|c s IH]; [by destruct t|].
  rewrite append_cons. simpl. by destruct (ascii_dec c c).
Qed.

Lemma includes_prefix s t : String.prefix s t = true → includes s t = true.
Proof. intros H. destruct t; cbn [includes]; by rewrite H. Qed.

Lemma includes_suffix a s : includes s (a +:+ s) = true.
Proof.
  induction a as [|c a IH].
  - apply includes_prefix, prefix_refl.
  - rewrite append_cons. simpl. rewrite IH. apply orb_true_r.
Qed.

Lemma prefix_append_l s x y :
  String.prefix s x = true → String.prefix s (x +:+ y) = true.
Proof.
  revert x. induction s as [|c s IH]; intros [|c' x]; simpl; try done.
  - intros _. by destruct y.
  - destruct (ascii_dec c c'); [apply IH|done].
Qed.

Lemma includes_append_l s x y :
  Js.includes s x = true → Js.includes s (x +:+ y) = true.
Proof.
  induction x as [|c x IH].
  - cbn [Js.includes]. rewrite orb_false_r. intros H.
    apply includes_prefix. by apply (prefix_append_l s "" y).
  - rewrite append_cons. cbn [Js.includes].
    intros [H|H]%orb_prop.
    + apply (prefix_append_l _ _ y) in H. rewrite append_cons in H.
      by rewrite H.
    + rewrite (IH H). apply orb_true_r.
Qed.

Lemma includes_append_r s x y :
  Js.includes s y = true → Js.includes s (x +:+ y) = true.
Proof.
  intros H. induction x as [|c x IH]; [done|].
  rewrite append_cons. cbn [Js.includes]. rewrite IH. apply orb_true_r.
Qed.

Lemma trim_start_unfold s :
  trim_start s = match next_ws s with Some s' => trim_start s' | None => s end.
Proof.
  destruct s as [|a [|b [|c s]]]; cbn [trim_start next_ws]; try done.
  - destruct (ws1 a); done.
  - destruct (ws1 a); [done|]. destruct (ws2 a b); done.
  - destruct (ws1 a); [done|]. destruct (ws2 a b); [done|].
    destruct (ws3 a b c); done.
Qed.

Lemma next_ws_length s s' :
  next_ws s = Some s' → String.length s' < String.length s.
Proof.
  destruct s as [|a [|b [|c s]]]; cbn [next_ws]; try done;
    repeat case_match; intros [= <-]; simpl; lia.
Qed.

(** Induction along the white space at the start of a string. *)
Lemma trim_start_ind (P : string → Prop) :
  (∀ s, next_ws s = None → P s) →
  (∀ s s', next_ws s = Some s' → P s' → P s) →
  ∀ s, P s.
Proof.
  intros Hn Hs s.
  remember (String.length s) as n eqn:Hl.
  revert s Hl. induction (lt_wf n) as [n _ IH]; intros s ->.
  destruct (next_ws s) as [s'|] eqn:E; [|by apply Hn].
  apply (Hs s s' E). apply (IH (String.length s')); [|done].
  by apply next_ws_length.
Qed.

Lemma trim_start_idem s : trim_start (trim_start s) = trim_start s.
Proof.
  induction s as [s E|s s' E IH] using trim_start_ind.
  - by rewrite (trim_start_unfold s), E, (trim_start_unfold s), E.
  - by rewrite (trim_start_unfold s), E.
Qed.

(** The test [s.trim() !== ''] fails exactly on blank strings. *)
Lemma trim_empty s : String.eqb (trim s) "" = blank s.
Proof.
  unfold trim. destruct (blank s) eqn:Hb.
  - unfold blank in Hb. apply String.eqb_eq in Hb. by rewrite Hb.
  - assert (blank (trim_start s) = false) as Hb'
      by (unfold blank in *; by rewrite trim_start_idem).
    destruct (trim_start s) as [|a t]; [done|].
    cbn [trim_end]. by rewrite Hb'.
Qed.

Lemma ws2_bytes a b : ws2 a b = true → ws_byte a = true ∧ ws_byte b = true.
Proof.
  unfold ws2, ws_byte. intros [Ha Hb]%andb_prop.
  apply N.eqb_eq in Ha, Hb. rewrite Ha, Hb.
  split; by rewrite orb_true_r.
Qed.

Lemma ws3_bytes a b c :
  ws3 a b c = true → ws_byte a = true ∧ ws_byte b = true ∧ ws_byte c = true.
Proof.
  unfold ws3, ws_byte.
  generalize (ws1 a) (ws1 b) (ws1 c) (N_of_ascii a) (N_of_ascii b)
    (N_of_ascii c).
  intros wa wb wc x y z.
  repeat (progress rewrite ?orb_true_iff, ?andb_true_iff).
  rewrite !bool_decide_eq_true, !N.eqb_eq, !N.leb_le.
  intros H. repeat (destruct_or! || destruct_and!); subst; repeat split;
    first [ right; lia
          | left; right; apply (bool_decide_unpack _); vm_compute; exact I ].
Qed.

Lemma next_ws_bytes s s' a :
  next_ws s = Some s' → ws_byte a = false →
  includes (String a "") s = includes (String a "") s'.
Proof.
  intros E Ha.
  assert (∀ b t, ws_byte b = true →
            includes (String a "") (String b t) = includes (String a "") t)
    as Hstep.
  { intros b t Hb. cbn [includes String.prefix].
    destruct (ascii_dec a b) as [->|]; [congruence|done]. }
  destruct s as [|b [|c [|d s]]]; cbn [next_ws] in E; try done.
  - destruct (ws1 b) eqn:E1; [|done]. injection E as <-.
    apply Hstep. unfold ws_byte. by rewrite E1.
  - destruct (ws1 b) eqn:E1.
    + injection E as <-. apply Hstep. unfold ws_byte. by rewrite E1.
    + destruct (ws2 b c) eqn:E2; [|done]. injection E as <-.
      destruct (ws2_bytes _ _ E2) as [Hb Hc].
      by rewrite (Hstep b _ Hb), (Hstep c _ Hc).
  - destruct (ws1 b) eqn:E1.
    + injection E as <-. apply Hstep. unfold ws_byte. by rewrite E1.
    + destruct (ws2 b c) eqn:E2.
      * injection E as <-. destruct (ws2_bytes _ _ E2) as [Hb Hc].
        by rewrite (Hstep b _ Hb), (Hstep c _ Hc).
      * destruct (ws3 b c d) eqn:E3; [|done]. injection E as <-.
        destruct (ws3_bytes _ _ _ E3) as (Hb & Hc & Hd).
        by rewrite (Hstep b _ Hb), (Hstep c _ Hc), (Hstep d _ Hd).
Qed.

(** A string in which a byte occurs that no white space has is not
    blank. *)
Lemma includes_not_blank a s :
  ws_byte a = false → includes (String a "") s = true → blank s = false.
Proof.
  intros Ha. unfold blank.
  induction s as [s E|s s' E IH] using trim_start_ind.
  - rewrite trim_start_unfold, E. intros H. apply String.eqb_neq.
    intros ->. done.
  - rewrite trim_start_unfold, E, (next_ws_bytes s s' a E Ha). apply IH.
Qed.

(** Markup is not blank. *)
Lemma markup_not_blank s : includes "<" s = true → blank s = false.
Proof. by apply includes_not_blank. Qed.

End JsFacts.

(** ** The summary panels: what the guard of the click handler sees *)

Section ContainerFacts.
Import Js SegmentList.

Lemma serialize_summary_not_blank sf seg inner :
  includes "<" (serialize sf seg (SegmentSummary inner)) = true.
Proof. by destruct sf. Qed.

(** A container without children passes for empty. *)
Lemma guard_empty sf seg c :
  children c = [] → String.eqb (trim (innerHTML sf seg c)) "" = true.
Proof. intros H. rewrite trim_empty. unfold innerHTML. by rewrite H. Qed.

(** A container that has the summary element never does, whatever the
    element shows. *)
Lemma guard_summary sf seg c inner :
  summary_of (children c) = Some inner →
  String.eqb (trim (innerHTML sf seg c)) "" = false.
Proof.
  rewrite trim_empty. intros H. apply markup_not_blank. revert H.
  unfold innerHTML.
  induction (children c) as [|[s|i] l IH]; cbn [foldr summary_of];
    [done| |]; intros H.
  - apply includes_append_r, IH, H.
  - apply includes_append_l, serialize_summary_not_blank.
Qed.

Lemma summary_of_removed c :
  summary_of (children (remove_summaries c)) = None.
Proof.
  unfold remove_summaries. simpl.
  induction (children c) as [|[s|i] l IH]; simpl; done.
Qed.

Lemma settled_not_loading sf o : settled sf o ≠ Loading.
Proof.
  destruct o as [m|r]; simpl; [done|].
  destruct (unchecked_json r); [done|]. by case_decide.
Qed.

End ContainerFacts.

(** ** The summary panels: counting requests *)

Section Counting.
Import SegmentList.

Lemma length_filter_snoc {A} (P : A → Prop) `{!∀ x, Decision (P x)}
    (l : list A) (x : A) :
  length (filter P (l ++ [x])) =
  length (filter P l) + (if decide (P x) then 1 else 0).
Proof.
  rewrite filter_app, length_app. f_equal.
  rewrite filter_cons. by case_decide.
Qed.

Lemma length_filter_delete {A} (P : A → Prop) `{!∀ x, Decision (P x)}
    (l : list A) (i : nat) (x : A) :
  l !! i = Some x →
  length (filter P l) =
  length (filter P (delete i l)) + (if decide (P x) then 1 else 0).
Proof.
  revert i. induction l as [|y l IH]; intros [|i] Hl; simplify_eq/=.
  - rewrite filter_cons. case_decide; simpl; lia.
  - rewrite !filter_cons. specialize (IH _ Hl).
    destruct (decide (P y)); simpl; lia.
Qed.

(** A segment request is recognised by its segment. *)
Lemma segment_request_for videoId s seg :
  (url (segment_request videoId s) =
     "http://localhost:5000/api/segment_summary" ∧
   ("segmentId", JNum (Z.of_N seg)) ∈ body (segment_request videoId s))
  ↔ s = seg.
Proof.
  simpl. split.
  - intros [_ H]. apply elem_of_cons in H as [H|H]; [done|].
    apply elem_of_cons in H as [H|H]; [|by apply elem_of_nil in H].
    injection H as H. by apply N2Z.inj in H.
  - intros ->. split; [done|]. apply elem_of_cons. right. apply elem_of_cons. by left.
Qed.

Lemma fresh_lookup (tss : list timestamp) seg c :
  fresh tss !! seg = Some c → c = Container [] false.
Proof.
  unfold fresh. induction tss as [|ts tss IH]; simpl; [by rewrite lookup_empty|].
  rewrite lookup_insert. case_decide; [by intros [= <-]|apply IH].
Qed.


(** A request in flight for a segment is counted. *)
Lemma in_flight_pos st i seg : inflight st !! i = Some seg → 0 < in_flight st seg.
Proof.
  intros Ei.
  pose proof (length_filter_delete (λ x, x = seg) _ _ _ Ei) as Hd.
  simpl in Hd. rewrite decide_True in Hd by done. unfold in_flight. lia.
Qed.

End Counting.

(** ** The summary panels: the click handler, case by case *)

Section ClickCases.
Import SegmentList.

(** On an empty container the handler shows the loading markup and
    requests the summary. *)
Lemma timestampClick_fetch sf time seg st c :
  containers st !! seg = Some c → children c = [] →
  timestampClick sf time seg st =
  State (currentVideoId st)
    (<[seg := Container (loading_children sf) (hidden c)]> (containers st))
    (inflight st ++ [seg])
    (sent st ++ [segment_request (currentVideoId st) seg])
    (navigations st ++ [time]).
Proof.
  intros E Hch. unfold timestampClick. rewrite E.
  by rewrite (guard_empty sf seg c Hch).
Qed.

(** On a container that has the summary element it toggles the class
    [hidden] and returns. *)
Lemma timestampClick_toggle sf time seg st c inner :
  containers st !! seg = Some c → summary_of (children c) = Some inner →
  timestampClick sf time seg st =
  State (currentVideoId st) (<[seg := toggle c]> (containers st))
    (inflight st) (sent st) (navigations st ++ [time]).
Proof.
  intros E Hs. unfold timestampClick. rewrite E.
  by rewrite (guard_summary sf seg c inner Hs).
Qed.

Lemma lookup_entry st seg c :
  containers st !! seg = Some c → lookup st seg = entry_of c.
Proof. intros E. unfold lookup. by rewrite E. Qed.

Lemma entry_of_summary c e :
  entry_of c = Some e → ∃ inner, summary_of (children c) = Some inner.
Proof. unfold entry_of. destruct (summary_of (children c)); eauto. done. Qed.

Lemma timestampClick_other sf time s st seg :
  s ≠ seg →
  containers (timestampClick sf time s st) !! seg = containers st !! seg ∧
  in_flight (timestampClick sf time s st) seg = in_flight st seg ∧
  requested (timestampClick sf time s st) seg = requested st seg.
Proof.
  intros Hne. unfold timestampClick.
  destruct (containers st !! s); [|done].
  destruct (negb _); simpl; (split; [by rewrite lookup_insert_ne|]);
    [done|].
  unfold in_flight, requested. simpl. rewrite !length_filter_snoc.
  rewrite decide_False by done. split; [lia|].
  case_decide as Hp; [|lia]. by rewrite segment_request_for in Hp.
Qed.

(** The handler of an item, on its own segment: nothing happens without
    a container; a container that is not blank is toggled; on a blank one
    the summary is requested, and then it had no entry. *)
Lemma timestampClick_cases sf time seg st :
  let st' := timestampClick sf time seg st in
  (lookup st' seg = lookup st seg ∧ sent st' = sent st ∧
   inflight st' = inflight st) ∨
  (lookup st seg = None ∧ lookup st' seg = Some pending ∧
   sent st' = sent st ++ [segment_request (currentVideoId st) seg] ∧
   inflight st' = inflight st ++ [seg]).
Proof.
  unfold timestampClick, lookup.
  destruct (containers st !! seg) as [c|] eqn:E; simpl; [|left; by rewrite E].
  destruct (String.eqb _ "") eqn:G; simpl; rewrite lookup_insert_eq; simpl.
  - right. repeat split.
    destruct (entry_of c) eqn:He; [|done].
    apply entry_of_summary in He as [inner Hs].
    by rewrite (guard_summary sf seg c inner Hs) in G.
  - by left.
Qed.

Lemma closeClick_entry sf s st seg :
  lookup (closeClick sf s st) seg = lookup st seg.
Proof.
  unfold closeClick. destruct (containers st !! s) as [c|] eqn:E; [|done].
  destruct (has_close_button sf c); [|done].
  unfold lookup. simpl. destruct (decide (s = seg)) as [->|Hne].
  - by rewrite lookup_insert_eq, E.
  - by rewrite lookup_insert_ne.
Qed.

Lemma summary_of_write_none inner l :
  summary_of l = None → summary_of (write_summary inner l) = None.
Proof. induction l as [|[s|i] l IH]; simpl; [done|done|discriminate]. Qed.

Lemma summary_of_write_some inner l x :
  summary_of l = Some x → summary_of (write_summary inner l) = Some inner.
Proof. induction l as [|[s|i] l IH]; simpl; [done|done|done]. Qed.

(** What the entry of a container is once an answer was written to it. *)
Lemma entry_of_write sf o c :
  entry_of (write (settled sf o) c) =
  match entry_of c with
  | Some _ => Some (entry_written (settled sf o))
  | None => None
  end.
Proof.
  unfold entry_of, write. simpl.
  destruct (summary_of (children c)) as [x|] eqn:Hs.
  - rewrite (summary_of_write_some _ _ _ Hs).
    by destruct x, (settled sf o).
  - by rewrite summary_of_write_none.
Qed.

Lemma entry_written_not_pending sf o : entry_written (settled sf o) ≠ pending.
Proof. pose proof (settled_not_loading sf o). by destruct (settled sf o). Qed.

(** What a request that settles does to the entry of a segment and to
    the requests in flight for it. *)
Lemma settle_cases sf i o st seg :
  let st' := settle sf i o st in
  sent st' = sent st ∧
  ((lookup st' seg = lookup st seg ∧ in_flight st' seg ≤ in_flight st seg) ∨
   (inflight st !! i = Some seg ∧ is_Some (lookup st seg) ∧
    lookup st' seg = Some (entry_written (settled sf o)) ∧
    in_flight st seg = S (in_flight st' seg))).
Proof.
  unfold settle.
  destruct (inflight st !! i) as [s|] eqn:Ei; simpl; [|by auto].
  split; [done|].
  pose proof (length_filter_delete (λ x, x = seg) _ _ _ Ei) as Hd.
  simpl in Hd. unfold lookup, in_flight. simpl.
  destruct (decide (s = seg)) as [->|Hne].
  - rewrite lookup_alter_eq.
    destruct (containers st !! seg) as [c|] eqn:E; simpl;
      [|left; split; [done|lia]].
    rewrite entry_of_write.
    destruct (entry_of c) eqn:He.
    + right. split; [done|]. split; [by eexists|]. split; [done|lia].
    + left. split; [done|lia].
  - rewrite lookup_alter_ne by done. left. split; [done|lia].
Qed.

(** One event of a list and the requests for a segment: either no
    request is made for it, and then none is added to those in flight; or
    one is made, its one request in flight is added, and the segment had
    no entry and now has one.  A segment that has an entry keeps
    having one. *)
Lemma step_counts sf e st seg :
  let st' := step sf e st in
  (is_Some (lookup st seg) → is_Some (lookup st' seg)) ∧
  ((requested st' seg = requested st seg ∧
    in_flight st' seg ≤ in_flight st seg) ∨
   (lookup st seg = None ∧ is_Some (lookup st' seg) ∧
    requested st' seg = S (requested st seg) ∧
    in_flight st' seg = S (in_flight st seg))).
Proof.
  destruct e as [time s|i o|s]; cbn [step].
  - destruct (decide (s = seg)) as [->|Hne].
    + destruct (timestampClick_cases sf time seg st)
        as [(Hl & Hs & Hi)|(Hn & Hl & Hs & Hi)].
      * split; [by rewrite Hl|]. left. unfold requested, in_flight.
        by rewrite Hs, Hi.
      * split; [by rewrite Hl|]. right. rewrite Hl.
        split; [done|]. split; [by eexists|].
        unfold requested, in_flight. rewrite Hs, Hi, !length_filter_snoc.
        rewrite !decide_True by (done || by apply segment_request_for). lia.
    + destruct (timestampClick_other sf time s st seg Hne) as (Hc & Hi & Hq).
      unfold lookup. rewrite Hc. split; [done|]. left. lia.
  - destruct (settle_cases sf i o st seg) as [Hs [[Hl Hi]|(_ & Hx & Hl & Hi)]].
    + split; [by rewrite Hl|]. left. unfold requested. rewrite Hs.
      split; [done|]. exact Hi.
    + split; [by rewrite Hl|]. left. unfold requested. rewrite Hs.
      split; [done|]. lia.
  - rewrite closeClick_entry. split; [done|]. left.
    unfold closeClick. destruct (containers st !! s) as [c|]; [|done].
    by destruct (has_close_button sf c).
Qed.

(** The same for the events of a list one after the other: at most one
    request is made for a segment, and none when it has an entry. *)
Lemma list_run_counts sf es st seg :
  (is_Some (lookup st seg) →
   requested (list_run sf es st) seg = requested st seg ∧
   in_flight (list_run sf es st) seg ≤ in_flight st seg) ∧
  requested (list_run sf es st) seg ≤ requested st seg + 1 ∧
  in_flight (list_run sf es st) seg ≤ in_flight st seg + 1.
Proof.
  unfold list_run. revert st.
  induction es as [|e es IH]; intros st; simpl; [split; [done|lia]|].
  destruct (IH (step sf e st)) as (IH1 & IH2 & IH3).
  destruct (step_counts sf e st seg)
    as [Hk [[Hq Hi]|(Hn & Hl & Hq & Hi)]].
  - split; [|lia]. intros Hx. destruct (IH1 (Hk Hx)). lia.
  - destruct (IH1 Hl). split; [|lia].
    rewrite Hn. by intros [? ?].
Qed.

(** The same in the popup while it is open, where a click on the list
    is lost while the result is hidden. *)
Lemma session_list_counts es s seg :
  (is_Some (lookup (Session.shown s) seg) →
   requested (Session.shown (Session.run (Session.OnList <$> es) s)) seg =
     requested (Session.shown s) seg ∧
   in_flight (Session.shown (Session.run (Session.OnList <$> es) s)) seg ≤
     in_flight (Session.shown s) seg) ∧
  requested (Session.shown (Session.run (Session.OnList <$> es) s)) seg ≤
    requested (Session.shown s) seg + 1 ∧
  in_flight (Session.shown (Session.run (Session.OnList <$> es) s)) seg ≤
    in_flight (Session.shown s) seg + 1.
Proof.
  unfold Session.run. revert s.
  induction es as [|e es IH]; intros s; [split; [done|simpl; lia]|].
  rewrite fmap_cons. cbn [foldl Session.step].
  destruct (Session.is_click e && Session.resultContainer_hidden s);
    [apply IH|].
  match goal with |- context [foldl _ ?s1 _] =>
    destruct (IH s1) as (IH1 & IH2 & IH3) end.
  simpl in IH1, IH2, IH3.
  destruct (step_counts PopupList e (Session.shown s) seg)
    as [Hk [[Hq Hi]|(Hn & Hl & Hq & Hi)]].
  - split; [|lia]. intros Hx. destruct (IH1 (Hk Hx)). lia.
  - destruct (IH1 Hl). split; [|lia].
    rewrite Hn. by intros [? ?].
Qed.

End ClickCases.

(** ** The summary panels as a cache *)

Section SegmentCache.
Import SegmentList.

Lemma display_no_entry p st seg : lookup (display p st) seg = None.
Proof.
  unfold lookup, display. simpl. destruct p; rewrite ?lookup_empty; try done.
  destruct (fresh timestamps !! seg) as [c|] eqn:E; [|done].
  apply fresh_lookup in E. by subst.
Qed.

(** C1, as stated, fails: an item is clicked and, before its summary has
    arrived, the back button is clicked, the timestamps card is clicked
    and the list is rendered anew; the item is clicked again.  Two
    requests were made for the segment, and both are in flight. *)
Lemma segment_fetched_again_after_back :
  inflight (Session.shown clicked_again) = [0%N; 0%N] ∧
  in_flight (Session.shown clicked_again) 0 = 2 ∧
  requested (Session.shown clicked_again) 0 = 2.
Proof. vm_compute. by repeat split. Qed.

(** C1, amended.  In any state of the document, under the click and
    completion handlers of the list (popup or overlay), one after the
    other in any number: at most one summary request is made for a
    segment, and at most one is added to those in flight for it; while
    the entry of the segment is pending, none is made, and a click leaves
    everything as it is; two clicks in a row on an item whose container
    is empty make exactly one request to /api/segment_summary.  The
    two bounds hold in the popup while it is open, for the clicks on its
    list and the answers that arrive between two clicks on a card or on
    the back button.  The rendering of a result leaves the requests in
    flight as they are and the segment without an entry. *)
Theorem segment_summary_fetched_once sf st es seg :
  let st' := list_run sf es st in
  requested st' seg ≤ requested st seg + 1 ∧
  in_flight st' seg ≤ in_flight st seg + 1 ∧
  (lookup st seg = Some pending →
   requested st' seg = requested st seg ∧
   in_flight st' seg ≤ in_flight st seg ∧
   ∀ time, sent (timestampClick sf time seg st) = sent st ∧
           inflight (timestampClick sf time seg st) = inflight st ∧
           lookup (timestampClick sf time seg st) seg = Some pending) ∧
  (∀ c, containers st !! seg = Some c → children c = [] →
   ∀ time time',
     let st2 := timestampClick sf time' seg (timestampClick sf time seg st) in
     sent st2 = sent st ++ [segment_request (currentVideoId st) seg] ∧
     url (segment_request (currentVideoId st) seg) =
       base +:+ "/api/segment_summary" ∧
     in_flight st2 seg = S (in_flight st seg) ∧
     lookup st2 seg = Some pending) ∧
  (∀ s les,
     let s' := Session.run (Session.OnList <$> les) s in
     requested (Session.shown s') seg ≤ requested (Session.shown s) seg + 1 ∧
     in_flight (Session.shown s') seg ≤ in_flight (Session.shown s) seg + 1) ∧
  (∀ p, inflight (display p st) = inflight st ∧
        sent (display p st) = sent st ∧
        lookup (display p st) seg = None).
Proof.
  destruct (list_run_counts sf es st seg) as (H1 & H2 & H3).
  simpl. split; [done|]. split; [done|]. split; [|split; [|split]].
  - intros Hp. destruct (H1 ltac:(by eexists)) as [Hq Hi].
    split; [done|]. split; [done|]. intros time.
    destruct (timestampClick_cases sf time seg st)
      as [(Hl & Hs & Hf)|(Hn & _)]; [|congruence].
    by rewrite Hl, Hs, Hf.
  - intros c E Hch time time'.
    rewrite (timestampClick_fetch sf time seg st c E Hch).
    erewrite timestampClick_toggle;
      [|by apply lookup_insert_eq|reflexivity].
    simpl. repeat split.
    + unfold in_flight. simpl. rewrite length_filter_snoc.
      rewrite decide_True by done. lia.
    + unfold lookup. simpl. by rewrite lookup_insert_eq.
  - intros s les. apply session_list_counts.
  - intros p. repeat split. apply display_no_entry.
Qed.

(** C2.  When the entry of a segment is ready or failed, a click on its
    item makes no request and starts none, leaves the stored content as
    it is and only toggles the class [hidden] of the container; the close
    button makes no request either and leaves the content as it is. *)
Theorem ready_entry_read_only sf st seg e :
  lookup st seg = Some e → e ≠ pending →
  (∀ time,
     sent (timestampClick sf time seg st) = sent st ∧
     inflight (timestampClick sf time seg st) = inflight st ∧
     lookup (timestampClick sf time seg st) seg = Some e ∧
     ∃ c, containers st !! seg = Some c ∧
          containers (timestampClick sf time seg st) !! seg =
            Some (Container (children c) (negb (hidden c)))) ∧
  sent (closeClick sf seg st) = sent st ∧
  inflight (closeClick sf seg st) = inflight st ∧
  lookup (closeClick sf seg st) seg = Some e.
Proof.
  intros He _. unfold lookup in He.
  destruct (containers st !! seg) as [c|] eqn:E; [|done]. simpl in He.
  destruct (entry_of_summary c e He) as [inner Hs]. split.
  - intros time. rewrite (timestampClick_toggle sf time seg st c inner E Hs).
    simpl. repeat split.
    + unfold lookup. simpl. by rewrite lookup_insert_eq.
    + exists c. by rewrite lookup_insert_eq.
  - unfold closeClick. rewrite E.
    destruct (has_close_button sf c); [|by rewrite (lookup_entry _ _ _ E)].
    simpl. repeat split. unfold lookup. simpl. by rewrite lookup_insert_eq.
Qed.

Lemma ready_entry_read_only_witness :
  lookup summary_ready 0 = Some (ready "0:12" "An introduction.") ∧
  sent (timestampClick PopupList "12.5" 0 summary_ready) = sent summary_ready ∧
  lookup (timestampClick PopupList "12.5" 0 summary_ready) 0 =
    Some (ready "0:12" "An introduction.").
Proof.
  assert (lookup summary_ready 0 = Some (ready "0:12" "An introduction."))
    as H by (vm_compute; reflexivity).
  split; [exact H|].
  pose proof (ready_entry_read_only PopupList summary_ready 0%N _ H
                ltac:(discriminate)) as [Hc _].
  destruct (Hc "12.5") as (H1 & _ & H3 & _).
  exact (conj H1 H3).
Defined.

End SegmentCache.

(** ** The order of the transitions of an entry *)

Section Transitions.
Import SegmentList.

(** One event of a list moves an entry forward or not at all; an entry
    that is ready or failed is written again only by another request for
    the same segment that settles. *)
Lemma step_entry sf e st seg :
  lookup (step sf e st) seg = lookup st seg ∨
  (lookup st seg = None ∧ lookup (step sf e st) seg = Some pending) ∨
  (is_Some (lookup st seg) ∧ 0 < in_flight st seg ∧
   ∃ y, lookup (step sf e st) seg = Some y ∧ y ≠ pending).
Proof.
  destruct e as [time s|i o|s]; cbn [step].
  - destruct (decide (s = seg)) as [->|Hne].
    + destruct (timestampClick_cases sf time seg st)
        as [(Hl & _)|(Hn & Hl & _)]; auto.
    + left. unfold lookup.
      by rewrite (proj1 (timestampClick_other sf time s st seg Hne)).
  - destruct (settle_cases sf i o st seg) as [_ [[Hl _]|(Ei & Hx & Hl & _)]];
      [by left|].
    right. right. split; [done|]. split; [by eapply in_flight_pos|].
    eexists. split; [done|]. apply entry_written_not_pending.
  - left. apply closeClick_entry.
Qed.

(** The back button leaves no entry. *)
Lemma backButtonClick_no_entry s seg :
  lookup (Session.shown (Session.backButtonClick s)) seg = None.
Proof.
  unfold lookup. simpl. rewrite lookup_fmap.
  destruct (containers (Session.shown s) !! seg) as [c|]; [|done]. simpl.
  unfold entry_of. by rewrite summary_of_removed.
Qed.

(** A click on a card that passes the guard leaves none either. *)
Lemma cardClick_no_entry feature s seg :
  Session.cardClick feature s = s ∨
  lookup (Session.shown (Session.cardClick feature s)) seg = None.
Proof.
  unfold Session.cardClick, Popup.cardClick.
  destruct (_ || _); [by left|]. right. by simpl.
Qed.

(** C8, as stated, fails: in the popup whose one entry is ready, the
    handler of the back button returns the entry to having none. *)
Lemma back_button_reverts_entry :
  lookup (Session.shown summary_shown) 0 =
    Some (ready "0:12" "An introduction.") ∧
  lookup (Session.shown (Session.step Session.BackClick summary_shown)) 0 =
    None.
Proof. vm_compute. by split. Qed.

(** When the list was rendered anew while a request was in flight and
    the item was clicked again, the first answer makes the entry ready
    and the second one writes over it. *)
Lemma late_answer_overwrites_entry :
  let arrived := Session.step summary_arrives clicked_again in
  lookup (Session.shown arrived) 0 = Some (ready "0:12" "An introduction.") ∧
  in_flight (Session.shown arrived) 0 = 1 ∧
  lookup (Session.shown
            (Session.step
               (Session.OnList (Settle 0 internal_error)) arrived)) 0 =
    Some (failed "Internal error").
Proof. vm_compute. by repeat split. Qed.

(** C8, amended.  Under the click and completion handlers of a list, in
    any state of the document: a segment without an entry stays so or
    becomes pending; a pending entry does not return to having none; an
    entry that is ready or failed never becomes pending or none again,
    and it stays as it is unless another request for the segment is in
    flight.  The handler of the back button, a click on a card that
    passes the guard, and the rendering of a result leave no segment with
    an entry. *)
Theorem entry_moves_forward sf st e seg :
  (lookup st seg = None →
   lookup (step sf e st) seg = None ∨
   lookup (step sf e st) seg = Some pending) ∧
  (lookup st seg = Some pending → lookup (step sf e st) seg ≠ None) ∧
  (∀ x, lookup st seg = Some x → x ≠ pending →
        (∃ y, lookup (step sf e st) seg = Some y ∧ y ≠ pending) ∧
        (in_flight st seg = 0 → lookup (step sf e st) seg = Some x)) ∧
  (∀ s, lookup (Session.shown (Session.backButtonClick s)) seg = None) ∧
  (∀ s feature,
     Session.cardClick feature s = s ∨
     lookup (Session.shown (Session.cardClick feature s)) seg = None) ∧
  (∀ p, lookup (display p st) seg = None).
Proof.
  split; [|split; [|split; [|split; [|split]]]].
  - intros Hn.
    destruct (step_entry sf e st seg) as [H|[[_ H]|([? Hx] & _)]];
      [left; congruence|by right|congruence].
  - intros Hp.
    destruct (step_entry sf e st seg) as [H|[[H _]|(_ & _ & y & H & _)]];
      congruence.
  - intros x Hx Hne.
    destruct (step_entry sf e st seg) as [H|[[H _]|(_ & Hi & y & H & Hy)]].
    + rewrite H. split; [by exists x|done].
    + congruence.
    + split; [by exists y|]. lia.
  - intros s. apply backButtonClick_no_entry.
  - intros s feature. apply cardClick_no_entry.
  - intros p. apply display_no_entry.
Qed.

End Transitions.

(** ** The requests of the popup *)

Section PopupRequests.
Import Popup.

(** Either answer of the tab leads to [processFeature]. *)
Lemma posts_processFeature w videoId feature :
  Js.falsy videoId = false →
  posts w videoId false feature = (exec w (processFeature feature videoId) []).2.
Proof.
  intros H. unfold posts, cardClick. rewrite H. simpl.
  by destruct (tab w _).
Qed.

Lemma endpoint_own feature apiUrl :
  apiEndpoints !! feature = Some apiUrl → endpoint feature = Some apiUrl.
Proof. intros H. unfold endpoint. by rewrite H. Qed.

Lemma endpoint_of feature :
  feature ∈ ["summarize"; "timestamps"; "keypoints_wiki"; "factcheck"] →
  endpoint feature = Some (base +:+ "/api/" +:+ feature).
Proof.
  intros Hf.
  repeat (apply elem_of_cons in Hf as [->|Hf]); [..|by apply elem_of_nil in Hf];
    by vm_compute.
Qed.

(** The features whose result is rendered from the one response make one
    request, to the address of the feature, with the generic body. *)
Lemma posts_single w videoId feature :
  Js.falsy videoId = false →
  feature ∈ ["summarize"; "timestamps"; "factcheck"] →
  posts w videoId false feature =
  [Request (base +:+ "/api/" +:+ feature) "POST" (generic_body videoId)].
Proof.
  intros H Hf. rewrite posts_processFeature by done.
  unfold processFeature. rewrite endpoint_of.
  2:{ repeat (apply elem_of_cons in Hf as [->|Hf]);
        [..|by apply elem_of_nil in Hf]; set_solver. }
  cbn [exec]. destruct (settled _) as [m|d]; [done|].
  repeat (apply elem_of_cons in Hf as [->|Hf]); [..|by apply elem_of_nil in Hf];
    unfold render; simpl.
  - done.
  - by destruct (Data.timestamps d).
  - by destruct (Data.sentiment d).
Qed.

(** The only request the rendering makes is the one of
    [case 'keypoints_wiki']. *)
Lemma render_posts w feature videoId d log r :
  r ∈ (exec w (render feature videoId d) log).2 →
  r ∈ log ∨
  r = Request "http://localhost:5000/api/keypoints_wiki" "POST"
        [("videoId", of_nullable videoId); ("numPoints", JNum 8)].
Proof.
  unfold render.
  destruct (String.eqb feature "summarize"); [by left|].
  destruct (String.eqb feature "timestamps");
    [destruct (Data.timestamps d); by left|].
  destruct (String.eqb feature "keypoints_wiki").
  - simpl. destruct (settled _) as [m|d']; [|destruct (Data.keyPoints d')];
      simpl; intros [H|H]%elem_of_app; auto;
      apply list_elem_of_singleton in H; auto.
  - destruct (String.eqb feature "factcheck");
      [destruct (Data.sentiment d)|]; by left.
Qed.

(** The guard of the card handler: every request of a click carries a
    video id that is a non-empty string. *)
Lemma posts_video_id w currentVideoId disabled feature r :
  r ∈ posts w currentVideoId disabled feature →
  ∃ s, s ≠ "" ∧ currentVideoId = Some s ∧ ("videoId", JStr s) ∈ body r.
Proof.
  unfold posts, cardClick.
  destruct currentVideoId as [[|c s]|]; simpl; try by intros ?%elem_of_nil.
  destruct disabled; simpl; [by intros ?%elem_of_nil|].
  intros Hr. exists (String c s). split; [done|]. split; [done|].
  assert (r ∈ (exec w (processFeature feature (Some (String c s))) []).2)
    as Hp by by destruct (tab w _).
  clear Hr. unfold processFeature in Hp.
  destruct (endpoint feature) as [apiUrl|];
    [|by apply elem_of_nil in Hp].
  simpl in Hp. destruct (settled _) as [m|d].
  { apply list_elem_of_singleton in Hp as ->. apply elem_of_cons. by left. }
  apply render_posts in Hp as [Hp| ->].
  - apply list_elem_of_singleton in Hp as ->. apply elem_of_cons. by left.
  - apply elem_of_cons. by left.
Qed.

(** Whenever the first request for keypoints_wiki is answered without an
    error, a second request to the same address follows it. *)
Lemma keypoints_wiki_second_request w videoId d :
  Js.falsy videoId = false →
  settled (backend w []
             (Request (base +:+ "/api/keypoints_wiki") "POST"
                (generic_body videoId))) = inr d →
  posts w videoId false "keypoints_wiki" =
  [Request (base +:+ "/api/keypoints_wiki") "POST" (generic_body videoId);
   Request (base +:+ "/api/keypoints_wiki") "POST"
     [("videoId", of_nullable videoId); ("numPoints", JNum 8)]].
Proof.
  intros H Hd. rewrite posts_processFeature by done.
  unfold processFeature. rewrite endpoint_of by set_solver.
  cbn [exec]. unfold generic_body in Hd.
  change (base +:+ "/api/keypoints_wiki")
    with (base +:+ "/api/" +:+ "keypoints_wiki") in Hd.
  rewrite Hd. clear Hd.
  unfold render. simpl.
  destruct (settled _) as [m|d']; [reflexivity|].
  destruct (Data.keyPoints d'); reflexivity.
Qed.

(** C3: a click on the keypoints_wiki card whose first request is
    answered makes two POST requests to /api/keypoints_wiki, the first
    with the generic body and the second with [numPoints]. *)
Theorem keypoints_wiki_posts_twice :
  posts willing (Some "abc") false "keypoints_wiki" =
  [Request (base +:+ "/api/keypoints_wiki") "POST" (generic_body (Some "abc"));
   Request (base +:+ "/api/keypoints_wiki") "POST"
     [("videoId", JStr "abc"); ("numPoints", JNum 8)]].
Proof. vm_compute. reflexivity. Qed.

(** C7: the bodies the popup posts to /api/timestamps and /api/factcheck
    have the fields [minLength] and [maxLength] next to [videoId]. *)
Theorem timestamps_body_has_lengths (w : world) :
  posts w (Some "abc") false "timestamps" =
    [Request (base +:+ "/api/timestamps") "POST"
       [("videoId", JStr "abc"); ("minLength", JNum 150);
        ("maxLength", JNum 300)]] ∧
  posts w (Some "abc") false "factcheck" =
    [Request (base +:+ "/api/factcheck") "POST"
       [("videoId", JStr "abc"); ("minLength", JNum 150);
        ("maxLength", JNum 300)]].
Proof.
  split; rewrite posts_single; try done.
  - apply elem_of_cons. right. apply elem_of_cons. by left.
  - do 2 (apply elem_of_cons; right). apply elem_of_cons. by left.
Qed.

(** The same for the popup's own page context: whatever tab the popup
    was opened on, a click on a card posts a non-empty video id or
    nothing. *)
Lemma popup_context_video_id w t feature r :
  r ∈ PopupContext.click w feature
        (PopupContext.tabQueried t PopupContext.initial) →
  ∃ s, s ≠ "" ∧ ("videoId", JStr s) ∈ body r.
Proof.
  intros (s & Hs & _ & Hb)%posts_video_id. eauto.
Qed.

End PopupRequests.

(** ** Responses that are not a success *)

Section Failures.

(** The handlers of a feature request and of a quick action turn a
    status outside 200-299 into an error whose message has the status
    code in it. *)
Lemma checked_status r :
  Response.ok r = false →
  checked_json r =
    inl ("API responded with status " +:+ pretty (Response.status r)) ∧
  Js.includes (pretty (Response.status r))
    ("API responded with status " +:+ pretty (Response.status r)) = true.
Proof.
  intros H. unfold checked_json. rewrite H. split; [done|].
  apply includes_suffix.
Qed.

Lemma feature_request_status r :
  Response.ok r = false →
  Popup.settled (Responded r) =
    inl ("API responded with status " +:+ pretty (Response.status r)) ∧
  Content.settled (Responded r) =
    inl ("API responded with status " +:+ pretty (Response.status r)).
Proof.
  intros H. unfold Popup.settled, Content.settled.
  by rewrite (proj1 (checked_status r H)).
Qed.

(** The handlers of a segment request do not look at the status. *)
Lemma segment_settled_any_status sf status status' j :
  SegmentList.settled sf (Responded (Response.Make status j)) =
  SegmentList.settled sf (Responded (Response.Make status' j)).
Proof. done. Qed.

(** C4: when /api/segment_summary answers with status 500, the handler of
    the popup (and that of the overlay) shows the error field of the body;
    the text has no "500" in it.  A feature request with the same answer
    is given the message with the status. *)
Theorem segment_summary_ignores_status :
  SegmentList.lookup (SegmentList.settle SegmentList.PopupList 0
                        internal_error summary_pending) 0 =
    Some (SegmentList.failed "Internal error") ∧
  SegmentList.settled SegmentList.QuickOverlay internal_error =
    SegmentList.Failure "Internal error" ∧
  Js.includes "500"
    (SegmentList.inner_html SegmentList.PopupList 0
       (SegmentList.Failure "Internal error")) = false ∧
  Js.includes "500"
    (SegmentList.inner_html SegmentList.QuickOverlay 0
       (SegmentList.Failure "Internal error")) = false ∧
  Popup.settled internal_error = inl "API responded with status 500".
Proof. vm_compute. by repeat split. Qed.

(** How the paths treat the status of a body, for a response with a
    success status and a JSON body: a body whose status is "error" is an
    error on every path, with the message of the body's error field, or
    "Unknown error occurred" when the field is missing or empty; the
    quick actions of the content script and the segment handlers treat
    every status other than "success" so, and [processFeature] takes
    every status other than "error" for a success. *)
Lemma body_status_paths r d :
  Response.ok r = true → Response.json r = Json d →
  (Data.status d = Some "error" →
   Popup.settled (Responded r) = inl (error_message d)) ∧
  (Data.status d ≠ Some "error" → Popup.settled (Responded r) = inr d) ∧
  (Data.status d ≠ Some "success" →
   Content.settled (Responded r) = inl (error_message d) ∧
   ∀ sf, SegmentList.settled sf (Responded r) =
         SegmentList.Failure (error_message d)) ∧
  (Data.status d = Some "success" →
   Content.settled (Responded r) = inr d ∧
   ∀ sf, ∃ formatted_time,
     SegmentList.settled sf (Responded r) =
     SegmentList.Content formatted_time (Js.interp (Data.summary d))) ∧
  (∀ c m, Data.error d = Some (String c m) → error_message d = String c m) ∧
  (Data.error d = None ∨ Data.error d = Some "" →
   error_message d = "Unknown error occurred").
Proof.
  intros Hok Hj.
  unfold Popup.settled, Content.settled, SegmentList.settled,
    checked_json, unchecked_json, error_message.
  rewrite Hok, Hj. simpl.
  repeat split; intros; repeat case_decide; try done; eauto.
  - by destruct (Data.error d) as [[|]|]; simplify_eq.
  - by destruct H as [-> | ->].
Qed.

(** C5: a body whose status is "failed" and whose error field is "quota
    exceeded", sent with the status 200.  [processFeature] takes it for a
    success and renders a summary of its missing fields; the handlers of
    the quick actions and of the segment requests, given the same
    response, end in the error with the message of the body. *)
Theorem processFeature_accepts_odd_status :
  Data.status odd_status_body ≠ Some "success" ∧
  Popup.settled (Responded (Response.Make 200 (Json odd_status_body))) =
    inr odd_status_body ∧
  (exec (World (λ _ _, Responded (Response.Make 200 (Json odd_status_body)))
               (λ _, None))
     (Popup.processFeature "summarize" (Some "abc")) []).1 =
    Popup.SummaryPanel "undefined" "undefined" ∧
  Content.settled (Responded (Response.Make 200 (Json odd_status_body))) =
    inl "quota exceeded" ∧
  SegmentList.settled SegmentList.PopupList
    (Responded (Response.Make 200 (Json odd_status_body))) =
    SegmentList.Failure "quota exceeded".
Proof. split; [done|]. vm_compute. by repeat split. Qed.

End Failures.

(** ** The content script *)

Section ContentScript.
Import Content.

Variable tryGetSubtitles : page → option string.

(** The script is rejected: the statements that were meant for the
    listener stand at the top level, two [return] among them. *)
Lemma content_js_rejected : parses content_js = false.
Proof. reflexivity. Qed.

(** So no message to the tab is answered, and none ends in a request. *)
Lemma content_script_silent w m pg st :
  answer m pg st = None ∧ posts w m pg st = [].
Proof. unfold answer, posts. by rewrite content_js_rejected. Qed.

(** [initialize] as it is declared: on a watch page without a title
    element it sets the default title. *)
Lemma initialize_default_title pg st :
  Js.includes "youtube.com/watch" (href pg) = true →
  titleElement pg = None →
  currentVideoTitle (initialize tryGetSubtitles pg st) = Some "YouTube Video".
Proof. intros H1 H2. unfold initialize. by rewrite H1, H2. Qed.

(** The observer leaves the title as it is when it finds no title
    element. *)
Lemma onMutation_keeps_title pg st :
  titleElement pg = None →
  currentVideoTitle (onMutation tryGetSubtitles pg st) = currentVideoTitle st.
Proof.
  intros H. unfold onMutation.
  destruct (Js.includes _ _); [|done].
  destruct (_ && _); [|done]. simpl. by rewrite H.
Qed.

(** The handler of quickSummarize as it is declared has no guard: it
    posts the video id whatever it is, [null] included. *)
Lemma quickSummarize_unguarded w st :
  (exec w (quickSummarize st) []).2 =
    [Request (base +:+ "/api/summarize") "POST"
       [("videoId", of_nullable (currentVideoId st));
        ("minLength", JNum 100); ("maxLength", JNum 200)]].
Proof. simpl. by destruct (settled _). Qed.

(** C6: the content script injected into a watch page on which the title
    selector finds no element.  The script is rejected by the parser, so
    [initialize] and the observer never run and no title is resolved:
    there are no globals, and the popup, which asks the tab for the
    details of the video, gets no answer and shows its own text for
    that, with no title kept. *)
Theorem tracker_resolves_no_title :
  titleElement second_page = None ∧
  parses content_js = false ∧
  (∀ pg, load tryGetSubtitles pg = None) ∧
  (∀ m pg st, answer m pg st = None) ∧
  PopupTitle.tabQueried
    (PopupContext.Tab (Some (href second_page)) (search second_page))
    (PopupTitle.Returns None)
    (PopupTitle.title_of
       (answer (Message "getVideoDetails" None) second_page initial)) =
  PopupTitle.Shown "YouTube NLP Assistant - Ready" None (Some "bbb") false.
Proof.
  split; [done|]. split; [done|]. split; [|split].
  - intros pg. unfold load. by rewrite content_js_rejected.
  - intros m pg st. unfold answer. by rewrite content_js_rejected.
  - by vm_compute.
Qed.

(** The five actions the listener has a branch for would be answered. *)
Lemma listener_answers a time pg st :
  a ∈ ["navigateToTime"; "getVideoDetails"; "verifyConnection";
       "quickSummarize"; "quickKeyPointsWiki"] →
  is_Some (response (listener (Message a time) pg st)).
Proof.
  intros Ha.
  repeat (apply elem_of_cons in Ha as [->|Ha]); [..|by apply elem_of_nil in Ha];
    by eexists.
Qed.

(** C9: for a quickTimestamps message the listener never calls
    [sendResponse], starts nothing and makes no request. *)
Theorem quickTimestamps_unanswered (w : world) (pg : page) (st : state) :
  listener (Message "quickTimestamps" None) pg st = Handled st None None None ∧
  posts w (Message "quickTimestamps" None) pg st = [].
Proof. split; [done|]. unfold posts. by destruct (parses content_js). Qed.

End ContentScript.

(** ** The requests of the popup while it is open *)

Section SessionRequests.
Import SegmentList.

(** What one step of a rendered list does to the video id, to the set of
    containers and to the requests made. *)
Lemma step_sent sf e st :
  currentVideoId (step sf e st) = currentVideoId st ∧
  (∀ seg, is_Some (containers (step sf e st) !! seg) ↔
          is_Some (containers st !! seg)) ∧
  (sent (step sf e st) = sent st ∨
   ∃ seg, is_Some (containers st !! seg) ∧
          sent (step sf e st) =
            sent st ++ [segment_request (currentVideoId st) seg]).
Proof.
  destruct e as [time s|i o|s]; simpl.
  - unfold timestampClick.
    destruct (containers st !! s) as [c|] eqn:E; [|by auto].
    destruct (negb _); simpl; (split; [done|]); split.
    + intros seg. rewrite lookup_insert. case_decide; [subst|done].
      by rewrite E.
    + by left.
    + intros seg. rewrite lookup_insert. case_decide; [subst|done].
      by rewrite E.
    + right. exists s. by rewrite E.
  - unfold settle. destruct (inflight st !! i) as [s|]; [|by auto]. simpl.
    split; [done|]. split; [|by left].
    intros seg. rewrite lookup_alter. case_decide; [subst|done].
    by rewrite fmap_is_Some.
  - unfold closeClick.
    destruct (containers st !! s) as [c|] eqn:E; [|by auto].
    destruct (has_close_button sf c); [|by auto]. simpl.
    split; [done|]. split; [|by left].
    intros seg. rewrite lookup_insert. case_decide; [subst|done].
    by rewrite E.
Qed.

Lemma advance_context (p : proc Popup.panel) s :
  currentVideoId (Session.shown (Session.advance p s)) =
    currentVideoId (Session.shown s) ∧
  Session.cards_disabled (Session.advance p s) = Session.cards_disabled s.
Proof. revert s. induction p; intros s; simpl; auto. Qed.

(** No event changes the variable [currentVideoId] or the class of the
    cards. *)
Lemma step_context e s :
  currentVideoId (Session.shown (Session.step e s)) =
    currentVideoId (Session.shown s) ∧
  Session.cards_disabled (Session.step e s) = Session.cards_disabled s.
Proof.
  destruct e as [feature| |e|i x]; simpl.
  - unfold Session.cardClick.
    destruct (Popup.cardClick _ _ _) as [[panel p]|]; [|done].
    destruct (advance_context p
                (Session.State (display panel (Session.shown s))
                   (Session.cards_disabled s) true false (Session.waiting s)))
      as [H1 H2].
    by rewrite H1, H2.
  - done.
  - destruct (_ && _); [done|]. simpl. split; [|done]. apply step_sent.
  - unfold Session.resume.
    destruct (Session.waiting s !! i) as [[]|]; destruct x; try done;
      match goal with |- context [Session.advance ?p ?s'] =>
        destruct (advance_context p s') as [H1 H2]; by rewrite H1, H2 end.
Qed.

Variable P : request → Prop.

Lemma advance_guarded (p : proc Popup.panel) s :
  chain_all P p →
  (∀ seg, P (segment_request (currentVideoId (Session.shown s)) seg)) →
  guarded P s → guarded P (Session.advance p s).
Proof.
  intros Hp. revert s.
  induction Hp as [panel|req k Hreq Hk _|m k Hk _|k Hk IH|ms k Hk _];
    intros s Hq (Hs & Hw & Hc); simpl.
  - split; [done|]. split; [done|]. by left.
  - split; [|split; [|by left]].
    + apply Forall_app. split; [done|]. by apply Forall_singleton.
    + apply Forall_app. split; [done|].
      apply Forall_singleton. by constructor.
  - split; [done|]. split; [|by left].
    apply Forall_app. split; [done|]. apply Forall_singleton. by constructor.
  - by apply IH.
  - split; [done|]. split; [|by left].
    apply Forall_app. split; [done|]. apply Forall_singleton. by constructor.
Qed.

Lemma list_step_guarded e s :
  guarded P s →
  guarded P
    (Session.State (step PopupList e (Session.shown s))
       (Session.cards_disabled s) (Session.toolsGrid_hidden s)
       (Session.resultContainer_hidden s) (Session.waiting s)).
Proof.
  intros (Hs & Hw & Hc).
  destruct (step_sent PopupList e (Session.shown s)) as (Hv & Hk & Hn).
  unfold guarded. simpl. rewrite Hv. split; [|split; [done|]].
  - destruct Hn as [-> | (seg & Hseg & ->)]; [done|].
    apply Forall_app. split; [done|]. apply Forall_singleton.
    destruct Hc as [Hq|[_ Hnone]]; [apply Hq|].
    rewrite Hnone in Hseg. by destruct Hseg.
  - destruct Hc as [Hq|[Hw0 Hnone]]; [by left|right].
    split; [done|]. intros seg.
    destruct (containers (step PopupList e (Session.shown s)) !! seg) eqn:E;
      [|done].
    assert (is_Some (containers (Session.shown s) !! seg)) as [c0 Hc']
      by (apply Hk; by eexists).
    by rewrite Hnone in Hc'.
Qed.

Lemma step_guarded e s :
  (∀ feature panel p,
     e = Session.CardClick feature →
     Popup.cardClick (currentVideoId (Session.shown s))
       (Session.cards_disabled s) feature = Some (panel, p) →
     chain_all P p ∧
     ∀ seg, P (segment_request (currentVideoId (Session.shown s)) seg)) →
  guarded P s → guarded P (Session.step e s).
Proof.
  intros Hcard Hg. destruct e as [feature| |e|i x]; simpl.
  - unfold Session.cardClick.
    destruct (Popup.cardClick _ _ _) as [[panel p]|] eqn:E; [|done].
    destruct (Hcard feature panel p eq_refl E) as [Hp Hq].
    destruct Hg as (Hs & Hw & _).
    apply advance_guarded; [done|done|]. split; [done|]. split; [done|].
    by left.
  - destruct Hg as (Hs & Hw & Hc). split; [done|]. split; [done|].
    destruct Hc as [Hq|[Hw0 Hnone]]; [by left|right]. split; [done|].
    intros seg. simpl. by rewrite lookup_fmap, Hnone.
  - destruct (_ && _); [done|]. by apply list_step_guarded.
  - unfold Session.resume.
    destruct (Session.waiting s !! i) as [p|] eqn:Ei; [|done].
    destruct Hg as (Hs & Hw & Hc).
    assert (chain_all P p) as Hp
      by (rewrite Forall_forall in Hw; apply Hw; by eapply list_elem_of_lookup_2).
    assert (∀ seg, P (segment_request (currentVideoId (Session.shown s)) seg))
      as Hq.
    { destruct Hc as [Hq|[Hw0 _]]; [done|]. by rewrite Hw0 in Ei. }
    assert (guarded P
              (Session.State (Session.shown s) (Session.cards_disabled s)
                 (Session.toolsGrid_hidden s)
                 (Session.resultContainer_hidden s)
                 (delete i (Session.waiting s)))) as Hg'.
    { split; [done|]. split; [by apply Forall_delete|by left]. }
    destruct p, x; try (by split); inversion Hp; subst;
      by apply advance_guarded.
Qed.

(** The property holds of all requests of the popup when it holds of the
    requests of the cards that are clicked and of the requests for the
    summary of a segment. *)
Lemma run_guarded es s :
  (∀ feature panel p,
     clicked feature es →
     Popup.cardClick (currentVideoId (Session.shown s))
       (Session.cards_disabled s) feature = Some (panel, p) →
     chain_all P p ∧
     ∀ seg, P (segment_request (currentVideoId (Session.shown s)) seg)) →
  guarded P s → guarded P (Session.run es s).
Proof.
  unfold Session.run, clicked. revert s.
  induction es as [|e es IH]; intros s Hcard Hg; simpl; [done|].
  destruct (step_context e s) as [Hv Hd].
  apply IH.
  - rewrite Hv, Hd. intros feature panel p Hin.
    apply Hcard. apply elem_of_cons. by right.
  - apply step_guarded; [|done]. intros feature panel p -> E.
    apply (Hcard feature panel p); [|done]. apply elem_of_cons. by left.
Qed.

End SessionRequests.

(** ** What the requests of the popup carry and where they go *)

Section SessionClaims.
Import SegmentList.

Lemma keypoints_wiki_chain (P : request → Prop) videoId :
  P (Request "http://localhost:5000/api/keypoints_wiki" "POST"
       [("videoId", of_nullable videoId); ("numPoints", JNum 8)]) →
  chain_all P (Popup.keypoints_wiki videoId).
Proof.
  intros H. constructor; [done|]. intros o.
  destruct (Popup.settled o) as [m|d]; [constructor|].
  destruct (Data.keyPoints d); constructor.
Qed.

Lemma processFeature_chain (P : request → Prop) feature videoId :
  (∀ apiUrl, Popup.endpoint feature = Some apiUrl →
             P (Request apiUrl "POST" (generic_body videoId))) →
  P (Request "http://localhost:5000/api/keypoints_wiki" "POST"
       [("videoId", of_nullable videoId); ("numPoints", JNum 8)]) →
  chain_all P (Popup.processFeature feature videoId).
Proof.
  intros H1 H2. unfold Popup.processFeature.
  destruct (Popup.endpoint feature) as [apiUrl|]; [|by repeat constructor].
  constructor; [by apply H1|]. intros o.
  destruct (Popup.settled o) as [m|d]; [constructor|].
  unfold Popup.render.
  destruct (String.eqb feature "summarize"); [constructor|].
  destruct (String.eqb feature "timestamps");
    [destruct (Data.timestamps d); constructor|].
  destruct (String.eqb feature "keypoints_wiki");
    [by apply keypoints_wiki_chain|].
  destruct (String.eqb feature "factcheck");
    [destruct (Data.sentiment d)|]; constructor.
Qed.

Lemma cardClick_chain (P : request → Prop) videoId disabled feature panel p :
  Popup.cardClick videoId disabled feature = Some (panel, p) →
  (∀ apiUrl, Popup.endpoint feature = Some apiUrl →
             P (Request apiUrl "POST" (generic_body videoId))) →
  P (Request "http://localhost:5000/api/keypoints_wiki" "POST"
       [("videoId", of_nullable videoId); ("numPoints", JNum 8)]) →
  chain_all P p.
Proof.
  unfold Popup.cardClick. destruct (_ || _); [done|]. intros [= _ <-] H1 H2.
  constructor. intros [r|]; [|constructor]; by apply processFeature_chain.
Qed.

(** The popup opened on a tab: either the tab is a watch page whose
    address has a video id that is not empty, which the popup keeps, or
    every click on a card ends at the guard. *)
Lemma opened_guard t :
  (∃ v, v ≠ "" ∧
        currentVideoId (Session.shown (Session.opened t)) = Some v ∧
        Content.get "v" (PopupContext.searchParams t) = Some v) ∨
  (∀ feature,
     Popup.cardClick (currentVideoId (Session.shown (Session.opened t)))
       (Session.cards_disabled (Session.opened t)) feature = None).
Proof.
  unfold Session.opened, PopupContext.tabQueried. simpl.
  destruct (PopupContext.tab_url t) as [u|]; simpl;
    [|by right].
  destruct (negb _ && _); simpl; [|by right].
  destruct (Content.get "v" (PopupContext.searchParams t)) as [[|c v]|];
    [by right| |by right].
  left. by exists (String c v).
Qed.

(** The popup has made no request when it opens. *)
Lemma opened_guarded (P : request → Prop) t : guarded P (Session.opened t).
Proof. split; [done|]. split; [done|]. right. by split. Qed.

(** C10.  Every request the popup makes while it is open, on whatever
    tab, after whatever clicks and callbacks, carries as [videoId] the
    [v] parameter of the address of the tab, which is not empty: the
    requests of the cards and the requests for the summary of a segment.
    So do the requests of a click on a card run to its end against any
    backend.  The content script makes no request, whatever message its
    tab is sent. *)
Theorem requests_carry_video_id t es :
  (∀ r, r ∈ sent (Session.shown (Session.run es (Session.opened t))) →
        ∃ v, v ≠ "" ∧
             Content.get "v" (PopupContext.searchParams t) = Some v ∧
             ("videoId", JStr v) ∈ body r) ∧
  (∀ w feature r,
     r ∈ PopupContext.click w feature
           (PopupContext.tabQueried t PopupContext.initial) →
     ∃ v, v ≠ "" ∧ ("videoId", JStr v) ∈ body r) ∧
  (∀ w m pg st, Content.posts w m pg st = []).
Proof.
  split; [|split].
  - intros r Hr. destruct (opened_guard t) as [(v & Hv & Hid & Hget)|Hnone].
    + exists v. split; [done|]. split; [done|].
      assert (guarded (λ r, ("videoId", JStr v) ∈ body r)
                (Session.run es (Session.opened t))) as (Hs & _).
      { apply run_guarded; [|apply opened_guarded].
        rewrite Hid. intros feature panel p _ E. split.
        - eapply cardClick_chain; [exact E| |];
            intros; apply elem_of_cons; by left.
        - intros seg. apply elem_of_cons. by left. }
      rewrite Forall_forall in Hs. by apply Hs.
    + assert (guarded (λ _, False) (Session.run es (Session.opened t)))
        as (Hs & _).
      { apply run_guarded; [|apply opened_guarded].
        intros feature panel p _ E. by rewrite Hnone in E. }
      rewrite Forall_forall in Hs. by destruct (Hs r Hr).
  - intros w feature r. apply popup_context_video_id.
  - intros w m pg st. apply content_script_silent.
Qed.

Lemma requests_carry_video_id_witness :
  ∃ v, v ≠ "" ∧
       Content.get "v" (PopupContext.searchParams watch_tab) = Some v ∧
       ("videoId", JStr v) ∈
         body (segment_request (Some "abc") 0).
Proof.
  apply (proj1 (requests_carry_video_id watch_tab
                  (timestamps_shown ++
                   [Session.OnList (TimestampClick "12.5" 0)]))).
  vm_compute. apply elem_of_cons. right. apply elem_of_cons. by left.
Defined.

Lemma endpoint_inv feature apiUrl :
  Popup.apiEndpoints !! feature = Some apiUrl →
  feature ∈ ["summarize"; "timestamps"; "keypoints_wiki"; "factcheck"] ∧
  apiUrl = base +:+ "/api/" +:+ feature.
Proof.
  unfold Popup.apiEndpoints. rewrite !lookup_insert, lookup_empty.
  repeat case_decide; subst; intros [= <-]; split; try reflexivity; set_solver.
Qed.

Lemma endpoint_local feature apiUrl body :
  Popup.apiEndpoints !! feature = Some apiUrl →
  local (Request apiUrl "POST" body).
Proof.
  intros [Hf ->]%endpoint_inv. split; [done|]. simpl.
  repeat (apply elem_of_cons in Hf as [->|Hf]); [..|by apply elem_of_nil in Hf];
    by vm_compute.
Qed.

Lemma inherited_inv feature text :
  Popup.inherited !! feature = Some text →
  feature ∈ ["constructor"; "hasOwnProperty"; "isPrototypeOf";
             "propertyIsEnumerable"; "toLocaleString"; "toString"; "valueOf";
             "__defineGetter__"; "__defineSetter__"; "__lookupGetter__";
             "__lookupSetter__"; "__proto__"].
Proof.
  unfold Popup.inherited. cbn [list_to_map foldr fst snd].
  rewrite !lookup_insert, lookup_empty.
  repeat case_decide; subst; intros [= <-]; set_solver.
Qed.

(** A feature that names an inherited property makes one request, to no
    address of the backend: [fetch] is given the text of the inherited
    value. *)
Lemma inherited_request w videoId feature text :
  Js.falsy videoId = false →
  Popup.inherited !! feature = Some text →
  Popup.posts w videoId false feature =
    [Request text "POST" (generic_body videoId)] ∧
  String.prefix (base +:+ "/api/") text = false.
Proof.
  intros Hv Hi. rewrite posts_processFeature by done.
  pose proof (inherited_inv _ _ Hi) as Hf.
  repeat (apply elem_of_cons in Hf as [->|Hf]); [..|by apply elem_of_nil in Hf];
    vm_compute in Hi; injection Hi as <-;
    (split; [|by vm_compute]);
    unfold Popup.processFeature;
    match goal with |- context [Popup.endpoint ?f] =>
      let e := eval vm_compute in (Popup.endpoint f) in
      change (Popup.endpoint f) with e end;
    cbn [exec]; destruct (Popup.settled _); reflexivity.
Qed.

(** X1.  While the popup is open, every request it makes is a POST to an
    address under http://localhost:5000/api/, as long as no card that is
    clicked has a feature that names a property of [Object.prototype];
    the click on a card with such a feature makes one request, whose
    address is the text of the inherited value. *)
Theorem requests_are_local :
  (∀ t es r,
     (∀ feature, clicked feature es → Popup.inherited !! feature = None) →
     r ∈ sent (Session.shown (Session.run es (Session.opened t))) →
     local r) ∧
  (∀ w videoId feature text,
     Js.falsy videoId = false →
     Popup.inherited !! feature = Some text →
     Popup.posts w videoId false feature =
       [Request text "POST" (generic_body videoId)] ∧
     ¬ local (Request text "POST" (generic_body videoId))).
Proof.
  split.
  - intros t es r Hf Hr.
    assert (guarded local (Session.run es (Session.opened t))) as (Hs & _).
    { apply run_guarded; [|apply opened_guarded].
      intros feature panel p Hc E. split; [|intros seg; by vm_compute].
      eapply cardClick_chain; [exact E| |by vm_compute].
      intros apiUrl. unfold Popup.endpoint. rewrite (Hf feature Hc).
      destruct (Popup.apiEndpoints !! feature) as [u|] eqn:Eu; [|done].
      intros [= <-]. by eapply endpoint_local. }
    rewrite Forall_forall in Hs. by apply Hs.
  - intros w videoId feature text Hv Hi.
    destruct (inherited_request w videoId feature text Hv Hi) as [Hp Hn].
    split; [done|]. intros [_ Hl]. simpl in Hl. congruence.
Qed.

Lemma requests_are_local_witness :
  local (segment_request (Some "abc") 0).
Proof.
  apply (proj1 requests_are_local watch_tab
           (timestamps_shown ++ [Session.OnList (TimestampClick "12.5" 0)])).
  - intros feature Hc. unfold clicked in Hc.
    apply elem_of_cons in Hc as [[= ->]|Hc]; [by vm_compute|].
    repeat (apply elem_of_cons in Hc as [?|Hc]; [discriminate|]).
    by apply elem_of_nil in Hc.
  - vm_compute. apply elem_of_cons. right. apply elem_of_cons. by left.
Defined.

End SessionClaims.

(** ** A click on a card, from the tab to the panel *)

Section CardClick.
Import Popup.

Lemma failure_settled o m : failure o m → settled o = inl m.
Proof.
  destruct 1 as [m|r Hok|r m Hok Hj|r d Hok Hj Hs]; simpl;
    unfold checked_json; rewrite ?Hok, ?Hj; simpl; try done.
  by rewrite decide_True.
Qed.

(** X2.  When the request of [processFeature] fails in any of the four
    ways (the fetch rejects, the status is outside 200-299, the body is
    not JSON, the body has the status "error"), the panel shows the
    message of the error and no further request is made. *)
Theorem first_failure_no_retry w feature videoId apiUrl m :
  apiEndpoints !! feature = Some apiUrl →
  failure (backend w [] (Request apiUrl "POST" (generic_body videoId))) m →
  exec w (processFeature feature videoId) [] =
    (ErrorPanel m, [Request apiUrl "POST" (generic_body videoId)]).
Proof.
  intros E Hf%failure_settled. unfold processFeature.
  rewrite (endpoint_own _ _ E).
  cbn [exec]. unfold generic_body in Hf. by rewrite Hf.
Qed.

Lemma first_failure_no_retry_witness :
  exec (World (λ _ _, internal_error) (λ _, None))
       (processFeature "summarize" (Some "abc")) [] =
    (ErrorPanel "API responded with status 500",
     [Request (base +:+ "/api/summarize") "POST" (generic_body (Some "abc"))]).
Proof.
  apply (first_failure_no_retry (World (λ _ _, internal_error) (λ _, None))
           "summarize" (Some "abc") (base +:+ "/api/summarize")
           "API responded with status 500").
  - by vm_compute.
  - apply (failure_status (Response.Make 500 _)). reflexivity.
Defined.

Lemma endpoint_none feature :
  feature ∉ ["summarize"; "timestamps"; "keypoints_wiki"; "factcheck"] →
  inherited !! feature = None →
  endpoint feature = None.
Proof.
  intros H Hi. unfold endpoint. rewrite Hi.
  destruct (apiEndpoints !! feature) as [u|] eqn:E; [|done].
  by apply endpoint_inv in E as [? _].
Qed.

(** X3.  A card whose feature is none of summarize, timestamps,
    keypoints_wiki and factcheck, and names no property of
    [Object.prototype] either, makes no request: the click shows the
    spinner and then the placeholder of the feature. *)
Theorem unknown_feature_placeholder w currentVideoId feature :
  Js.falsy currentVideoId = false →
  feature ∉ ["summarize"; "timestamps"; "keypoints_wiki"; "factcheck"] →
  inherited !! feature = None →
  ∃ p, cardClick currentVideoId false feature = Some (Spinner, p) ∧
       exec w p [] = (Placeholder feature, []).
Proof.
  intros Hv Hf Hi. pose proof (endpoint_none feature Hf Hi) as He.
  unfold cardClick. rewrite Hv. simpl.
  eexists. split; [reflexivity|]. simpl.
  unfold processFeatureWithFallback, processFeature. rewrite He.
  by destruct (tab w _).
Qed.

Lemma unknown_feature_placeholder_witness :
  ∃ p, cardClick (Some "abc") false "sentiment" = Some (Spinner, p) ∧
       exec willing p [] = (Placeholder "sentiment", []).
Proof.
  apply (unknown_feature_placeholder willing (Some "abc") "sentiment").
  - reflexivity.
  - intros H. repeat (apply elem_of_cons in H as [H|H]; [discriminate|]).
    by apply elem_of_nil in H.
  - by vm_compute.
Defined.

Lemma exec_silent {A} b t t' (p : proc A) log :
  silent p → exec (World b t) p log = exec (World b t') p log.
Proof.
  intros H. revert log. induction H; intros log; simpl; auto.
Qed.

Lemma keypoints_wiki_silent videoId : silent (keypoints_wiki videoId).
Proof.
  constructor. intros o. destruct (settled o) as [m|d]; [constructor|].
  destruct (Data.keyPoints d); constructor.
Qed.

Lemma render_silent feature videoId d : silent (render feature videoId d).
Proof.
  unfold render.
  destruct (String.eqb feature "summarize"); [constructor|].
  destruct (String.eqb feature "timestamps");
    [destruct (Data.timestamps d); constructor|].
  destruct (String.eqb feature "keypoints_wiki");
    [apply keypoints_wiki_silent|].
  destruct (String.eqb feature "factcheck");
    [destruct (Data.sentiment d)|]; constructor.
Qed.

Lemma processFeature_silent feature videoId :
  silent (processFeature feature videoId).
Proof.
  unfold processFeature.
  destruct (endpoint feature); [|by repeat constructor].
  constructor. intros o. destruct (settled o) as [m|d]; [constructor|].
  apply render_silent.
Qed.

(** X4.  Whether the content script answers [verifyConnection] or not
    makes no difference to a click on a card: the same requests are made
    and the same panel is shown. *)
Theorem connection_check_irrelevant b t t' currentVideoId disabled feature p :
  cardClick currentVideoId disabled feature = Some (Spinner, p) →
  exec (World b t) p [] = exec (World b t') p [].
Proof.
  unfold cardClick. destruct (_ || _); [done|]. intros [= <-]. simpl.
  unfold processFeatureWithFallback.
  destruct (t _), (t' _); simpl; apply exec_silent, processFeature_silent.
Qed.

Lemma connection_check_irrelevant_witness :
  ∃ p, cardClick (Some "abc") false "timestamps" = Some (Spinner, p) ∧
       exec (World (backend willing) (λ _, None)) p [] =
       exec (World (backend willing) (tab willing)) p [].
Proof.
  eexists. split; [reflexivity|].
  apply (connection_check_irrelevant (backend willing) (λ _, None)
           (tab willing) (Some "abc") false "timestamps").
  reflexivity.
Defined.

(** X5.  On a tab that is not a YouTube watch page no click on a card
    makes a request; on any tab, every request of a click carries the
    [v] parameter of the tab's address, which is not empty. *)
Theorem popup_context_requests w t feature :
  let st := PopupContext.tabQueried t PopupContext.initial in
  ((∀ u, PopupContext.tab_url t = Some u → Js.includes "youtube.com/watch" u = false) →
   PopupContext.click w feature st = []) ∧
  (∀ r, r ∈ PopupContext.click w feature st →
        ∃ u v, PopupContext.tab_url t = Some u ∧
               Js.includes "youtube.com/watch" u = true ∧
               Content.get "v" (PopupContext.searchParams t) = Some v ∧ v ≠ "" ∧
               ("videoId", JStr v) ∈ body r).
Proof.
  unfold PopupContext.click, PopupContext.tabQueried. simpl. split.
  - intros Hu. destruct (PopupContext.tab_url t) as [u|]; [|done].
    rewrite (Hu u eq_refl), andb_false_r. done.
  - intros r. destruct (PopupContext.tab_url t) as [u|]; [|by intros ?%elem_of_nil].
    destruct (negb _ && _) eqn:Hw; [|by intros ?%elem_of_nil].
    apply andb_prop in Hw as [_ Hw].
    intros (v & Hv & Hg & Hb)%posts_video_id. simpl in Hg. eauto 10.
Qed.

Lemma popup_context_requests_witness :
  PopupContext.click willing "summarize"
    (PopupContext.tabQueried
       (PopupContext.Tab (Some "https://example.org/") [])
       PopupContext.initial) = [].
Proof.
  apply (popup_context_requests willing
           (PopupContext.Tab (Some "https://example.org/") []) "summarize").
  intros u [= <-]. reflexivity.
Defined.

End CardClick.

(** ** The summary panels: where a result lands *)

Section Landing.
Import SegmentList.



Lemma settles_no_entry sf (settles : list (nat * outcome)) st :
  (∀ seg, lookup st seg = None) →
  (∀ seg, lookup (list_run sf ((λ s, Settle s.1 s.2) <$> settles) st) seg
          = None) ∧
  sent (list_run sf ((λ s, Settle s.1 s.2) <$> settles) st) = sent st.
Proof.
  unfold list_run. revert st.
  induction settles as [|[i o] l IH]; intros st Hn; [done|].
  rewrite fmap_cons. cbn [foldl step fst snd].
  assert (∀ seg, lookup (settle sf i o st) seg = None) as Hn'.
  { intros seg.
    destruct (settle_cases sf i o st seg) as [_ [[Hl _]|(_ & [e He] & _)]].
    - by rewrite Hl.
    - by rewrite Hn in He. }
  destruct (IH _ Hn') as [H1 H2]. split; [exact H1|].
  etransitivity; [exact H2|]. apply (settle_cases sf i o st 0%N).
Qed.

(** X7.  The back button cancels nothing: the requests in flight stay in
    flight and the waiting chains keep waiting.  As long as the document
    stays as the back button left it, every answer that arrives for a
    segment is dropped: however many requests settle, no segment gets an
    entry and no request is made. *)
Theorem late_summary_dropped s (settles : list (nat * outcome)) seg :
  let after_back := Session.shown (Session.backButtonClick s) in
  inflight after_back = inflight (Session.shown s) ∧
  sent after_back = sent (Session.shown s) ∧
  Session.waiting (Session.backButtonClick s) = Session.waiting s ∧
  lookup (list_run PopupList ((λ s, Settle s.1 s.2) <$> settles) after_back) seg
    = None ∧
  sent (list_run PopupList ((λ s, Settle s.1 s.2) <$> settles) after_back) =
    sent (Session.shown s).
Proof.
  split; [done|]. split; [done|]. split; [done|].
  destruct (settles_no_entry PopupList settles
              (Session.shown (Session.backButtonClick s))) as [H1 H2];
    [intros seg'; apply backButtonClick_no_entry|].
  split; [apply H1|]. by rewrite H2.
Qed.

(** X9.  The close button of the popup hides the panel of a ready or
    failed entry, and the next click on the item shows it again, with the
    same content and without a request; two clicks on the item in a row
    leave the container as it was.  The overlay has no close button. *)
Theorem close_then_click_reopens st seg c e time :
  containers st !! seg = Some c → entry_of c = Some e → e ≠ pending →
  containers (closeClick PopupList seg st) !! seg =
    Some (Container (children c) true) ∧
  containers (timestampClick PopupList time seg (closeClick PopupList seg st))
    !! seg = Some (Container (children c) false) ∧
  sent (timestampClick PopupList time seg (closeClick PopupList seg st)) =
    sent st ∧
  (∀ sf time',
     containers (timestampClick sf time' seg (timestampClick sf time seg st))
       !! seg = Some c) ∧
  closeClick QuickOverlay seg st = st.
Proof.
  intros E He Hne.
  destruct (entry_of_summary c e He) as [inner Hs].
  assert (has_close_button PopupList c = true) as Hb.
  { unfold has_close_button. unfold entry_of in He. rewrite Hs in *.
    destruct inner; [|done|done]. by simplify_eq. }
  assert (closeClick PopupList seg st =
          State (currentVideoId st)
            (<[seg := Container (children c) true]> (containers st))
            (inflight st) (sent st) (navigations st)) as Hclose.
  { unfold closeClick. by rewrite E, Hb. }
  rewrite Hclose. split; [simpl; by rewrite lookup_insert_eq|].
  erewrite timestampClick_toggle;
    [|by apply lookup_insert_eq|exact Hs].
  simpl. split; [by rewrite lookup_insert_eq|]. split; [done|]. split.
  - intros sf time'.
    rewrite (timestampClick_toggle sf time seg st c inner E Hs).
    erewrite timestampClick_toggle; [|by apply lookup_insert_eq|exact Hs].
    simpl. rewrite lookup_insert_eq. unfold toggle. simpl.
    rewrite negb_involutive. by destruct c.
  - unfold closeClick. rewrite E. unfold has_close_button.
    by destruct (summary_of (children c)) as [[]|].
Qed.

Lemma close_then_click_reopens_witness :
  sent (timestampClick PopupList "12.5" 0
          (closeClick PopupList 0 summary_ready)) = sent summary_ready.
Proof.
  pose proof (close_then_click_reopens summary_ready 0%N
                (Container (shape PopupList
                              (Content "0:12" "An introduction.")) false)
                (ready "0:12" "An introduction.") "12.5"
                ltac:(vm_compute; reflexivity) eq_refl ltac:(discriminate))
    as (_ & _ & H & _).
  exact H.
Defined.

End Landing.

(** ** The observer of the content script, as it is declared *)

Section Tracker.
Import Content.

Variable tryGetSubtitles : page → option string.

Lemma onMutation_id pg st :
  currentVideoId (onMutation tryGetSubtitles pg st) =
  match observed_id pg with
  | Some v => Some v
  | None => currentVideoId st
  end.
Proof.
  unfold onMutation, observed_id.
  destruct (Js.includes _ _); simpl; [|done].
  destruct (get "v" (search pg)) as [[|c v]|] eqn:Hv; simpl; try done.
  case_bool_decide; simpl; congruence.
Qed.

Lemma onMutation_idempotent pg st :
  onMutation tryGetSubtitles pg (onMutation tryGetSubtitles pg st) =
  onMutation tryGetSubtitles pg st.
Proof.
  unfold onMutation.
  destruct (Js.includes _ _); [|done].
  destruct (negb (Js.falsy (get "v" (search pg))) &&
            negb (bool_decide (get "v" (search pg) = currentVideoId st)))
    eqn:Hc.
  - simpl. rewrite bool_decide_eq_true_2 by done. by rewrite andb_false_r.
  - by rewrite Hc.
Qed.

Lemma iter_onMutation n pg st :
  Nat.iter (S n) (onMutation tryGetSubtitles pg) st =
  onMutation tryGetSubtitles pg st.
Proof.
  induction n as [|n IH]; [done|].
  change (Nat.iter (S (S n)) (onMutation tryGetSubtitles pg) st)
    with (onMutation tryGetSubtitles pg
            (Nat.iter (S n) (onMutation tryGetSubtitles pg) st)).
  rewrite IH. apply onMutation_idempotent.
Qed.

(** X10.  Once the observer is installed, after any batch of mutations the
    video id is the [v] parameter of the page if the page is a watch page
    and the parameter is not empty, and the id it was before otherwise (a
    page without a video keeps the id of the last video); further
    mutations on the same page change nothing. *)
Theorem observer_tracks_video_id n pg st :
  observing st = true →
  currentVideoId (observed tryGetSubtitles (S n) pg st) =
    match observed_id pg with
    | Some v => Some v
    | None => currentVideoId st
    end ∧
  observed tryGetSubtitles (S n) pg st = observed tryGetSubtitles 1 pg st ∧
  ∀ m, observed tryGetSubtitles m pg (observed tryGetSubtitles (S n) pg st) =
       observed tryGetSubtitles (S n) pg st.
Proof.
  intros Ho. unfold observed. rewrite Ho, iter_onMutation.
  split; [apply onMutation_id|]. split; [reflexivity|].
  intros m.
  destruct (observing (onMutation tryGetSubtitles pg st)); [|reflexivity].
  induction m as [|m IH]; [reflexivity|]. simpl. rewrite IH.
  apply onMutation_idempotent.
Qed.

End Tracker.

Lemma observer_tracks_video_id_witness :
  Content.currentVideoId
    (Content.observed (λ _, None) 3 second_page
       (Content.State (Some "aaa") (Some "First video") None true true)) =
  Some "bbb".
Proof.
  pose proof (observer_tracks_video_id (λ _, None) 2 second_page
                (Content.State (Some "aaa") (Some "First video") None true
                   true)
                eq_refl) as [H _].
  exact H.
Defined.

(** ** The context menu *)

Section ContextMenu.

(** X13.  The items of the context menu: "quick-summarize" and
    "quick-timestamps" send [quickSummarize] resp. [quickTimestamps] to
    the tab, any other item sends nothing.  Whichever item is clicked, no
    answer comes back and no request is made: the tab has no listener,
    the content script being rejected as it is. *)
Theorem context_menu_requests w menuItemId pg st :
  Background.menuPosts w menuItemId pg st = [] ∧
  Background.menuAnswer menuItemId pg st = None ∧
  Background.onClicked "quick-summarize" =
    Some (Message "quickSummarize" None) ∧
  Background.onClicked "quick-timestamps" =
    Some (Message "quickTimestamps" None) ∧
  (menuItemId ≠ "quick-summarize" → menuItemId ≠ "quick-timestamps" →
   Background.onClicked menuItemId = None).
Proof.
  split; [|split; [|split; [done|split; [done|]]]].
  - unfold Background.menuPosts.
    destruct (Background.onClicked menuItemId); [|done].
    apply content_script_silent.
  - unfold Background.menuAnswer.
    destruct (Background.onClicked menuItemId); [|done]. simpl.
    apply (content_script_silent w).
  - intros H1%String.eqb_neq H2%String.eqb_neq.
    unfold Background.onClicked. by rewrite H1, H2.
Qed.

End ContextMenu.

(** ** The overlay of the content script *)

Section OverlayFacts.
Import Page.

Lemma remove_overlay_overlays l :
  length (filter (λ n, is_overlay n = true) (remove_overlay l)) =
  pred (length (filter (λ n, is_overlay n = true) l)).
Proof.
  induction l as [|[tag|ty c] l IH]; cbn [remove_overlay]; [done| |].
  - by rewrite !filter_cons_False.
  - by rewrite filter_cons_True.
Qed.

Lemma remove_overlay_foreign l :
  filter (λ n, is_overlay n = false) (remove_overlay l) =
  filter (λ n, is_overlay n = false) l.
Proof.
  induction l as [|[tag|ty c] l IH]; cbn [remove_overlay]; [done| |].
  - rewrite !filter_cons_True by done. by rewrite IH.
  - by rewrite filter_cons_False.
Qed.

Lemma write_overlay_overlays r l :
  filter (λ n, is_overlay n = true) (write_overlay r l) =
  match filter (λ n, is_overlay n = true) l with
  | Overlay ty _ :: rest => Overlay ty (Result r) :: rest
  | other => other
  end.
Proof.
  induction l as [|[tag|ty c] l IH]; cbn [write_overlay]; [done| |].
  - by rewrite !filter_cons_False.
  - by rewrite !filter_cons_True.
Qed.

Lemma write_overlay_foreign r l :
  filter (λ n, is_overlay n = false) (write_overlay r l) =
  filter (λ n, is_overlay n = false) l.
Proof.
  induction l as [|[tag|ty c] l IH]; cbn [write_overlay]; [done| |].
  - rewrite !filter_cons_True by done. by rewrite IH.
  - by rewrite !filter_cons_False.
Qed.

Lemma perform_keeps c d :
  overlays d ≤ 1 →
  overlays (perform c d) ≤ 1 ∧ foreign (perform c d) = foreign d ∧
  styles (perform c d) = styles d + (if is_display c then 1 else 0).
Proof.
  intros H. unfold overlays, foreign in *. destruct c as [m ty|r|]; simpl.
  - rewrite !filter_app, length_app, remove_overlay_overlays,
      remove_overlay_foreign.
    rewrite filter_cons_True, filter_cons_False by done. simpl.
    rewrite app_nil_r. repeat split; lia.
  - rewrite write_overlay_overlays, write_overlay_foreign.
    repeat split; [|lia].
    by destruct (filter _ (body d)) as [|[|]].
  - rewrite remove_overlay_overlays, remove_overlay_foreign.
    repeat split; lia.
Qed.

Lemma performs_keeps cs d :
  overlays d ≤ 1 →
  overlays (performs cs d) ≤ 1 ∧ foreign (performs cs d) = foreign d ∧
  styles (performs cs d) = styles d + displays cs.
Proof.
  unfold performs, displays. revert d.
  induction cs as [|c cs IH]; intros d H; simpl; [repeat split; lia|].
  destruct (perform_keeps c d H) as (H1 & H2 & H3).
  destruct (IH _ H1) as (H4 & H5 & H6).
  split; [done|]. split; [congruence|]. rewrite H6, H3.
  destruct c; simpl; rewrite ?filter_cons_True, ?filter_cons_False by done;
    simpl; lia.
Qed.

(** X14.  Whatever quick actions are started, answered and closed, the
    document has at most one overlay and the other elements of the page
    stay as they are, in their order; a style element is added to the head
    at every [displayQuickResult] and none is ever removed.  A call of
    [displayQuickResult] leaves exactly its own overlay, with the loading
    message; [updateQuickResult] writes into the overlay that is there,
    whichever action opened it, and does nothing when there is none;
    [removeQuickResult] leaves no overlay. *)
Theorem overlay_at_most_one cs d :
  overlays d ≤ 1 →
  let d' := performs cs d in
  overlays d' ≤ 1 ∧ foreign d' = foreign d ∧
  styles d' = styles d + displays cs ∧
  (∀ m ty, overlay (displayQuickResult m ty d') =
             Some (ty, LoadingMessage m)) ∧
  (∀ r, overlay (updateQuickResult r d') =
          (λ o, (o.1, Result r)) <$> overlay d') ∧
  overlay (removeQuickResult d') = None.
Proof.
  intros H. destruct (performs_keeps cs d H) as (H1 & H2 & H3).
  simpl. split; [done|]. split; [done|]. split; [done|].
  generalize dependent (performs cs d). clear. intros d' H1 _ _.
  unfold overlays, overlay in *.
  assert (length (filter (λ n, is_overlay n = true)
                    (remove_overlay (body d'))) = 0) as H0
    by (rewrite remove_overlay_overlays; lia).
  apply length_zero_iff_nil in H0. repeat split.
  - intros m ty. simpl. by rewrite filter_app, H0, filter_cons_True.
  - intros r. simpl. rewrite write_overlay_overlays.
    by destruct (filter _ (body d')) as [|[|]].
  - simpl. by rewrite H0.
Qed.

Lemma overlay_at_most_one_witness :
  overlay (performs [Display "Generating summary..." "summary";
                     Display "Generating key points..." "key_points_wiki";
                     Update (Content.QuickSummary "A summary.")]
             (Dom [Foreign "ytd-app"] 0)) =
  Some ("key_points_wiki", Result (Content.QuickSummary "A summary.")).
Proof.
  pose proof (overlay_at_most_one
                [Display "Generating summary..." "summary";
                 Display "Generating key points..." "key_points_wiki"]
                (Dom [Foreign "ytd-app"] 0) ltac:(vm_compute; lia))
    as (_ & _ & _ & _ & H & _).
  exact (H (Content.QuickSummary "A summary.")).
Defined.

End OverlayFacts.

(** ** The title of the popup *)

Section PopupTitleFacts.
Import PopupTitle.

Lemma truthy_interp x : Js.falsy x = false → x = Some (Js.interp x) ∧ Js.interp x ≠ "".
Proof. by destruct x as [[|]|]. Qed.

(** X16.  Whatever the tab, the injected script and the content script
    deliver, the popup shows a title text that is not empty; a title is
    stored only when one was delivered, it is not empty and it is the text
    shown; and the cards are disabled exactly on a tab that is not a watch
    page, where "Not a YouTube video page" is shown and no video id is
    taken. *)
Theorem popup_title_never_empty t s details :
  let sh := tabQueried t s details in
  textContent sh ≠ "" ∧
  (∀ title, currentVideoTitle sh = Some title →
            title ≠ "" ∧ textContent sh = title ∧ cards_disabled sh = false) ∧
  (cards_disabled sh = true →
   textContent sh = "Not a YouTube video page" ∧
   currentVideoTitle sh = None ∧ currentVideoId sh = None) ∧
  (cards_disabled sh = true ↔
   ∀ u, PopupContext.tab_url t = Some u →
        Js.includes "youtube.com/watch" u = false).
Proof.
  unfold tabQueried, PopupContext.tabQueried.
  destruct (PopupContext.tab_url t) as [[|c u]|]; cbn -[Js.includes];
    [repeat split; intros; simplify_eq; done| |
     repeat split; intros; simplify_eq; done].
  destruct (Js.includes "youtube.com/watch" (String c u)) eqn:Hw;
    cbn -[Js.includes].
  2:{ repeat split; intros; simplify_eq; done. }
  assert (∀ P : Prop,
            (∀ u0, Some (String c u) = Some u0 →
                   Js.includes "youtube.com/watch" u0 = false) → P) as Hn.
  { intros P H. by rewrite (H _ eq_refl) in Hw. }
  destruct s as [|result]; cbn -[Js.includes].
  { repeat split; intros; simplify_eq; try done. by apply Hn. }
  destruct (Js.falsy result) eqn:Hr; cbn -[Js.includes].
  - destruct details as [title|]; cbn -[Js.includes].
    2:{ repeat split; intros; simplify_eq; try done. by apply Hn. }
    destruct (Js.falsy title) eqn:Ht; cbn -[Js.includes].
    { repeat split; intros; simplify_eq; try done. by apply Hn. }
    destruct (truthy_interp title Ht) as [Ht1 Ht2].
    repeat split; intros; try done; try (by apply Hn);
      rewrite Ht1 in *; by simplify_eq.
  - destruct (truthy_interp result Hr) as [Ht1 Ht2].
    repeat split; intros; try done; try (by apply Hn);
      rewrite Ht1 in *; by simplify_eq.
Qed.

(** X17.  On the tab of a video, when the injected script finds no
    title, the popup asks the content script of the tab for the details
    of the video; no listener answers, so the popup shows "YouTube NLP
    Assistant - Ready" and keeps no title, whatever the page shows. *)
Theorem popup_title_unanswered t u pg st :
  PopupContext.tab_url t = Some u →
  Js.includes "youtube.com/watch" u = true →
  let details :=
    title_of (Content.answer (Message "getVideoDetails" None) pg st) in
  let sh := tabQueried t (Returns None) details in
  details = None ∧
  textContent sh = "YouTube NLP Assistant - Ready" ∧
  currentVideoTitle sh = None ∧
  cards_disabled sh = false.
Proof.
  intros Hu Hw. cbv zeta.
  rewrite (proj1 (content_script_silent willing _ pg st)).
  unfold tabQueried, PopupContext.tabQueried. rewrite Hu.
  destruct u; [done|]. cbn -[Js.includes]. rewrite Hw. by cbn.
Qed.

End PopupTitleFacts.

Lemma popup_title_never_empty_witness :
  PopupTitle.textContent
    (PopupTitle.tabQueried
       (PopupContext.Tab (Some "https://www.youtube.com/watch?v=aaa")
          [("v", "aaa")])
       (PopupTitle.Returns (Some "First video")) None) = "First video".
Proof.
  pose proof (popup_title_never_empty
                (PopupContext.Tab (Some "https://www.youtube.com/watch?v=aaa")
                   [("v", "aaa")])
                (PopupTitle.Returns (Some "First video")) None)
    as (_ & H & _).
  exact (proj1 (proj2 (H "First video" eq_refl))).
Defined.

Lemma popup_title_unanswered_witness :
  PopupTitle.textContent
    (PopupTitle.tabQueried watch_tab (PopupTitle.Returns None)
       (PopupTitle.title_of
          (Content.answer (Message "getVideoDetails" None) second_page
             Content.initial))) = "YouTube NLP Assistant - Ready".
Proof.
  pose proof (popup_title_unanswered watch_tab
                "https://www.youtube.com/watch?v=abc" second_page
                Content.initial eq_refl eq_refl) as (_ & H & _).
  exact H.
Defined.

(** ** The transcript and the comments *)

Section Panels.

(** X18.  However often the transcript button is clicked, its label says
    what the next click does: "Show Full Transcript" exactly while the
    transcript is hidden; the transcript is hidden after an even number
    of clicks and shown after an odd number. *)
Theorem transcript_label_matches n :
  let st := Nat.iter n Transcript.click Transcript.rendered in
  Transcript.hidden st = Nat.even n ∧
  Transcript.label st =
    (if Transcript.hidden st then "Show Full Transcript"
     else "Hide Full Transcript").
Proof.
  induction n as [|n [IH1 IH2]]; [done|].
  rewrite Nat.even_succ, <- Nat.negb_even, <- IH1.
  change (Nat.iter (S n) Transcript.click Transcript.rendered)
    with (Transcript.click (Nat.iter n Transcript.click Transcript.rendered)).
  unfold Transcript.click.
  by destruct (Transcript.hidden _).
Qed.

Lemma comment_item_includes c : Js.includes c (Comments.comment_item c) = true.
Proof.
  unfold Comments.comment_item, Js.line.
  apply includes_append_r, includes_append_l.
  do 2 apply includes_append_r. do 5 apply includes_append_r.
  apply includes_prefix, prefix_append.
Qed.

Lemma comment_items_include comments c :
  c ∈ comments →
  Js.includes c (foldr (λ c s, Comments.comment_item c +:+ s) "" comments)
  = true.
Proof.
  induction comments as [|c1 l IH]; [by intros ?%elem_of_nil|].
  cbn [foldr]. intros [->|Hc]%elem_of_cons.
  - apply includes_append_l, comment_item_includes.
  - by apply includes_append_r, IH.
Qed.

(** X19.  The markup of the comments of a fact check is never blank: when
    the result has no comments, or none at all, it is the "No comments
    available" element; otherwise it shows one item for every comment, and
    the text of every comment is in it. *)
Theorem comments_always_shown :
  (∀ comments, Js.blank (Comments.generateCommentsHTML comments) = false) ∧
  (∀ d, Data.comments_sample d = None ∨ Data.comments_sample d = Some [] →
        Comments.comments_html d = Comments.no_comments) ∧
  (∀ comments,
     comments ≠ [] →
     Comments.generateCommentsHTML comments =
       foldr (λ c s, Comments.comment_item c +:+ s) "" comments) ∧
  (∀ comments c,
     c ∈ comments →
     Js.includes c (Comments.generateCommentsHTML comments) = true).
Proof.
  repeat split.
  - intros comments. apply markup_not_blank.
    destruct comments as [|c cs]; [done|].
    cbn [Comments.generateCommentsHTML foldr].
    apply includes_append_l. unfold Comments.comment_item, Js.line.
    apply includes_append_r, includes_append_l.
    do 2 apply includes_append_r. by apply includes_prefix.
  - intros d [H|H]; unfold Comments.comments_html; by rewrite H.
  - by intros [|c cs].
  - intros comments c Hc.
    destruct comments as [|c0 cs]; [by apply elem_of_nil in Hc|].
    by apply (comment_items_include (c0 :: cs)).
Qed.

Lemma comments_always_shown_witness :
  Js.includes "Great video"
    (Comments.generateCommentsHTML ["First!"; "Great video"]) = true.
Proof.
  apply (proj2 (proj2 (proj2 comments_always_shown))).
  apply elem_of_cons. right. apply elem_of_cons. by left.
Defined.

End Panels.

(** ** From a timestamps result to the list, and the number of requests *)

Section Delivery.
Import SegmentList.


Lemma render_length w feature videoId d log :
  length (exec w (Popup.render feature videoId d) log).2 = length log ∨
  feature = "keypoints_wiki" ∧
  length (exec w (Popup.render feature videoId d) log).2 = S (length log).
Proof.
  unfold Popup.render.
  destruct (String.eqb feature "summarize"); [by left|].
  destruct (String.eqb feature "timestamps");
    [destruct (Data.timestamps d); by left|].
  destruct (String.eqb feature "keypoints_wiki") eqn:E.
  - right. apply String.eqb_eq in E. split; [done|]. simpl.
    destruct (Popup.settled _) as [m|d']; [|destruct (Data.keyPoints d')];
      simpl; rewrite length_app; simpl; lia.
  - destruct (String.eqb feature "factcheck");
      [destruct (Data.sentiment d)|]; by left.
Qed.

(** X21.  A click on a card never makes more than two requests, and two
    only for keypoints_wiki; a disabled card or a missing video id makes
    none. *)
Theorem posts_at_most_two w currentVideoId disabled feature :
  length (Popup.posts w currentVideoId disabled feature) ≤ 2 ∧
  (length (Popup.posts w currentVideoId disabled feature) = 2 →
   feature = "keypoints_wiki") ∧
  (disabled = true ∨ Js.falsy currentVideoId = true →
   Popup.posts w currentVideoId disabled feature = []).
Proof.
  assert (length (Popup.posts w currentVideoId disabled feature) ≤ 1 ∨
          feature = "keypoints_wiki" ∧
          length (Popup.posts w currentVideoId disabled feature) = 2) as H.
  { unfold Popup.posts, Popup.cardClick.
    destruct (_ || _); [left; simpl; lia|].
    assert ((exec w (SendMessage (Message "verifyConnection" None)
                       (λ response,
                          match response with
                          | Some _ => Popup.processFeature feature currentVideoId
                          | None =>
                              Popup.processFeatureWithFallback feature
                                currentVideoId
                          end)) []).2 =
            (exec w (Popup.processFeature feature currentVideoId) []).2)
      as -> by (simpl; by destruct (tab w _)).
    unfold Popup.processFeature.
    destruct (Popup.endpoint feature); [|left; simpl; lia].
    cbn [exec]. destruct (Popup.settled _) as [m|d]; [left; simpl; lia|].
    destruct (render_length w feature currentVideoId d
                ([] ++ [Request s "POST"
                          [("videoId", of_nullable currentVideoId);
                           ("minLength", JNum 150); ("maxLength", JNum 300)]]))
      as [Hl|[Hf Hl]]; simpl in *; [left|right]; rewrite Hl; auto. }
  split; [destruct H as [H|[_ H]]; lia|].
  split; [destruct H as [H|[H _]]; [lia|done]|].
  intros Hg. unfold Popup.posts, Popup.cardClick.
  destruct Hg as [-> | ->]; [by rewrite orb_true_r|done].
Qed.

(** What one event of the overlay does to the set of containers and to
    the requests made. *)
Lemma overlay_step_sent oe st :
  (∀ seg, is_Some (containers (overlay_step oe st) !! seg) ↔
          is_Some (containers st !! seg)) ∧
  (sent (overlay_step oe st) = sent st ∧
   (currentVideoId (overlay_step oe st) = currentVideoId st ∨
    ∃ newVideoId, oe = Assigned newVideoId ∧
                  currentVideoId (overlay_step oe st) = Some newVideoId) ∨
   currentVideoId (overlay_step oe st) = currentVideoId st ∧
   ∃ seg, is_Some (containers st !! seg) ∧
          sent (overlay_step oe st) =
            sent st ++ [segment_request (currentVideoId st) seg]).
Proof.
  destruct oe as [e|newVideoId]; simpl.
  - destruct (step_sent QuickOverlay e st) as (Hv & Hc & [Hs|Hs]); eauto.
  - split; [done|]. left. eauto.
Qed.

(** X8.  Whatever is clicked and whatever arrives, the list of the popup
    only ever requests the summary of a segment that has a container in
    the document, for the video id of the popup.  So does the list of
    the overlay, for the video id the global has when the item is
    clicked: the one it had at first or one the observer has assigned
    since, and a click after an assignment sends the id assigned. *)
Theorem list_requests_known_segments :
  (∀ es st r,
     r ∈ sent (list_run PopupList es st) →
     r ∈ sent st ∨
     ∃ seg, is_Some (containers st !! seg) ∧
            r = segment_request (currentVideoId st) seg) ∧
  (∀ oes st r,
     r ∈ sent (overlay_run oes st) →
     r ∈ sent st ∨
     ∃ seg v, is_Some (containers st !! seg) ∧
              (v = currentVideoId st ∨
               ∃ newVideoId, Assigned newVideoId ∈ oes ∧ v = Some newVideoId) ∧
              r = segment_request v seg) ∧
  (∀ st time seg newVideoId c,
     containers st !! seg = Some c → children c = [] →
     sent (timestampClick QuickOverlay time seg (assign newVideoId st)) =
       sent st ++ [segment_request (Some newVideoId) seg]).
Proof.
  split; [|split].
  - unfold list_run. intros es.
    induction es as [|e es IH]; intros st r; simpl; [by left|].
    intros [Hr|(seg & Hseg & ->)]%IH;
      destruct (step_sent PopupList e st) as (Hv & Hc & Hs).
    + destruct Hs as [Hs|(seg & Hseg & Hs)]; rewrite Hs in Hr; [by left|].
      apply elem_of_app in Hr as [Hr| ->%list_elem_of_singleton];
        [by left|right; eauto].
    + right. exists seg. rewrite <- Hv. split; [by apply Hc|done].
  - unfold overlay_run. intros oes.
    induction oes as [|oe oes IH]; intros st r; simpl; [by left|].
    destruct (overlay_step_sent oe st) as (Hc & Hs).
    intros [Hr|(seg & v & Hseg & Hv & ->)]%IH.
    + destruct Hs as [[Hs _]|(_ & seg & Hseg & Hs)]; rewrite Hs in Hr;
        [by left|].
      apply elem_of_app in Hr as [Hr| ->%list_elem_of_singleton];
        [by left|right].
      exists seg, (currentVideoId st). eauto.
    + right. exists seg, v. split; [by apply Hc|]. split; [|done].
      destruct Hv as [->|(id & Hid & ->)].
      * destruct Hs as [[_ [Hv|(id & -> & Hv)]]|[Hv _]]; rewrite Hv;
          [by left| |by left].
        right. exists id. split; [apply elem_of_cons; by left|done].
      * right. exists id. split; [apply elem_of_cons; by right|done].
  - intros st time seg newVideoId c E Hch.
    by rewrite (timestampClick_fetch QuickOverlay time seg
                  (assign newVideoId st) c E Hch).
Qed.

End Delivery.


Lemma posts_at_most_two_witness :
  Popup.posts willing (Some "abc") true "summarize" = [].
Proof.
  pose proof (posts_at_most_two willing (Some "abc") true "summarize")
    as (_ & _ & H).
  exact (H (or_introl eq_refl)).
Defined.

Lemma list_requests_known_segments_witness :
  SegmentList.segment_request (Some "abc") 0 ∈
    SegmentList.sent
      (SegmentList.display (Popup.TimestampsPanel [intro_segment])
         (SegmentList.initial (Some "abc"))) ∨
  ∃ seg,
    is_Some (SegmentList.containers
               (SegmentList.display (Popup.TimestampsPanel [intro_segment])
                  (SegmentList.initial (Some "abc"))) !! seg) ∧
    SegmentList.segment_request (Some "abc") 0 =
      SegmentList.segment_request (Some "abc") seg.
Proof.
  apply (proj1 list_requests_known_segments
           [SegmentList.TimestampClick "12.5" 0]).
  vm_compute. apply elem_of_cons. by left.
Defined.
